(** * The notification bridge of the wallet UI

    A shallow embedding of the listener adapters and of the pages'
    notification loops:

    - [Chan]: Go's channels as the adapters and the loops use them (bounded
      FIFO buffer, senders parked when it is full, close);
    - [Listeners]: [TxAndBlockNotificationListener] and its callbacks;
    - [Bridge]: the attach / consume / teardown protocol shared by
      [ProposalsPage], [AccountMixerPage] and [OrderHistoryPage], as an
      interleaving semantics of the UI thread, the engine's callbacks and the
      loop goroutine;
    - [TxPage]: the notification loop of [TransactionsPage];
    - [Scenarios], [Visits]: executions of the pages;
    - [ListenerCalls], [PageHandlers], [TxVisits]: the callbacks and the
      receive cases, counted over whole executions;
    - [OrderHistoryList], [ProposalsList], [TransactionsList]: the lists the
      pages load;
    - [WalletTabs], [ExchangeRate]: the tabs and the exchange rate of
      [SingleWalletMasterPage]. *)

From stdpp Require Import base option list strings.
From Stdlib Require Import ZArith Lia.

Set Default Proof Using "Type".

(** Go's run-time panics that the bridge could raise. *)
Inductive panic : Type :=
| SendOnClosed   (* send on closed channel *)
| DoubleClose    (* close of closed channel *)
| NilDeref.      (* nil pointer dereference *)

#[global] Instance panic_eq_dec : EqDecision panic.
Proof. solve_decision. Defined.

(** The two cases of the loops' [select]. *)
Inductive branch : Type :=
| BrRecv   (* case n := <-ch *)
| BrDone.  (* case <-ctx.Done() *)

#[global] Instance branch_eq_dec : EqDecision branch.
Proof. solve_decision. Defined.

(** ** Channels *)

Module Chan.

Section Chan.
Context {A : Type}.

(** [make(chan A, cap)]: the values buffered, oldest first; the values of the
    senders parked on the full buffer, in the order they parked; the closed
    flag. *)
Record chan : Type := MkChan {
  cap : nat;
  buf : list A;
  sendq : list A;
  closed : bool
}.

Definition make (n : nat) : chan := MkChan n [] [] false.

(** What has been sent and not yet received, in order. *)
Definition pending (c : chan) : list A := buf c ++ sendq c.

Inductive send_result : Type :=
| Sent (c : chan)      (* the value is in the buffer, the sender goes on *)
| Parked (c : chan)    (* the buffer is full: the sender blocks in the send *)
| SendPanics.          (* the channel is closed *)

(** [ch <- v] *)
Definition send (v : A) (c : chan) : send_result :=
  if closed c then SendPanics
  else if length (buf c) <? cap c
       then Sent (MkChan (cap c) (buf c ++ [v]) (sendq c) (closed c))
       else Parked (MkChan (cap c) (buf c) (sendq c ++ [v]) (closed c)).

(** [v, ok := <-ch]: [None] when the receive would block; the value is
    [None] for the zero value a closed and drained channel yields.  A receive
    from a full buffer lets the first parked sender complete its send. *)
Definition recv (c : chan) : option (option A * chan) :=
  match buf c, sendq c with
  | x :: b, [] => Some (Some x, MkChan (cap c) b [] (closed c))
  | x :: b, y :: q => Some (Some x, MkChan (cap c) (b ++ [y]) q (closed c))
  | [], y :: q => Some (Some y, MkChan (cap c) [] q (closed c))
  | [], [] => if closed c then Some (None, c) else None
  end.

Inductive close_result : Type :=
| Closed (c : chan) (woken : list A)  (* the parked senders wake up and panic *)
| ClosePanics.                        (* the channel was closed already *)

(** [close(ch)] *)
Definition close (c : chan) : close_result :=
  if closed c then ClosePanics
  else Closed (MkChan (cap c) (buf c) [] true) (sendq c).

(** The cases of a [select] over [<-ch] and [<-ctx.Done()] that can proceed.
    Go picks one of them at random when both can. *)
Definition ready (c : chan) (cancelled : bool) : list branch :=
  match recv c with Some _ => [BrRecv] | None => [] end
  ++ (if cancelled then [BrDone] else []).


(** Senders are parked only on a full buffer, and the buffer never exceeds
    the capacity. *)
Definition wf (c : chan) : Prop :=
  length (buf c) ≤ cap c ∧ (sendq c = [] ∨ cap c ≤ length (buf c)).

Lemma wf_make n : wf (make n).
Proof. split; simpl; [lia | by left]. Qed.

Lemma send_open_pending v c :
  wf c → closed c = false →
  ∃ c', (send v c = Sent c' ∨ send v c = Parked c')
        ∧ pending c' = pending c ++ [v] ∧ closed c' = false ∧ cap c' = cap c
        ∧ wf c'.
Proof.
  intros [Hle Hq] Hc. unfold send. rewrite Hc.
  destruct (Nat.ltb_spec (length (buf c)) (cap c)) as [Hlt|Hge].
  - destruct Hq as [Hq|Hq]; [|lia].
    eexists; split; [by left|]. unfold pending, wf; simpl.
    rewrite Hq, !app_nil_r, length_app; simpl.
    repeat split; [lia | by left].
  - eexists; split; [by right|]. unfold pending, wf; simpl.
    rewrite app_assoc. repeat split; [lia | by right].
Qed.


Lemma send_room v c :
  closed c = false → length (buf c) < cap c →
  send v c = Sent (MkChan (cap c) (buf c ++ [v]) (sendq c) false).
Proof.
  intros Hc Hroom. unfold send. rewrite Hc.
  destruct (Nat.ltb_spec (length (buf c)) (cap c)); [done | lia].
Qed.

Lemma recv_pending c v c' :
  recv c = Some (Some v, c') →
  pending c = v :: pending c' ∧ closed c' = closed c ∧ cap c' = cap c.
Proof.
  unfold recv, pending.
  destruct (buf c) as [|x b], (sendq c) as [|y q]; simpl; intros H.
  - destruct (closed c); simplify_eq.
  - by simplify_eq.
  - simplify_eq; simpl. by rewrite app_nil_r.
  - simplify_eq; simpl. by rewrite <- app_assoc.
Qed.

Lemma recv_zero c c' :
  recv c = Some (None, c') → c' = c ∧ closed c = true ∧ pending c = [].
Proof.
  unfold recv, pending.
  destruct (buf c) as [|x b] eqn:Hb, (sendq c) as [|y q] eqn:Hq; simpl; intros H;
    try by simplify_eq.
  destruct (closed c); by simplify_eq.
Qed.

Lemma recv_blocks c :
  recv c = None ↔ pending c = [] ∧ closed c = false.
Proof.
  unfold recv, pending.
  destruct (buf c) as [|x b], (sendq c) as [|y q]; simpl;
    try (split; [done | by intros [? ?]]).
  destruct (closed c); split; try done. by intros [? ?].
Qed.


Lemma recv_wf c v c' : wf c → recv c = Some (v, c') → wf c'.
Proof.
  unfold recv, wf. intros [Hle Hq].
  destruct (buf c) as [|x b] eqn:Hb, (sendq c) as [|y q] eqn:Hs; simpl in *;
    intros H.
  - destruct (closed c); simplify_eq. rewrite Hb, Hs; simpl. split; [lia | by left].
  - simplify_eq; simpl. destruct Hq as [?|Hq]; [done|]. split; [lia | by right].
  - simplify_eq; simpl. split; [lia | by left].
  - simplify_eq; simpl. destruct Hq as [?|Hq]; [done|].
    rewrite length_app; simpl. split; [lia | right; lia].
Qed.

Lemma close_open c :
  closed c = false → close c = Closed (MkChan (cap c) (buf c) [] true) (sendq c).
Proof. intros Hc. unfold close. by rewrite Hc. Qed.

Lemma close_closed c : closed c = true → close c = ClosePanics.
Proof. intros Hc. unfold close. by rewrite Hc. Qed.



End Chan.

Arguments chan : clear implicits.
Arguments send_result : clear implicits.
Arguments close_result : clear implicits.

End Chan.

(** ** The tx and block listener adapter *)

Module Listeners.
Import Chan.

Section Listeners.

(** [libwallet.Transaction] and [json.Unmarshal] come from outside these
    sources: the decoder yields the transaction or the error's text. *)
Context {Transaction : Type}.
Variable Unmarshal : string → Transaction + string.

Inductive TxNotificationType : Type :=
| NewTransaction
| BlockAttached
| TxConfirmed.

(** [TxNotification]; a field a callback leaves out has Go's zero value. *)
Record TxNotification : Type := MkTxNotification {
  Type_ : TxNotificationType;
  Transaction_ : option Transaction;
  WalletID : Z;
  BlockHeight : Z;
  Hash : string
}.

Record TxAndBlockNotificationListener : Type := MkListener {
  TxAndBlockNotifChan : chan TxNotification
}.

Definition NewTxAndBlockNotificationListener : TxAndBlockNotificationListener :=
  MkListener (make 4).

(** How a callback leaves the engine thread that invoked it, with the
    listener and the log as the callback left them.  The callbacks have no
    return value. *)
Inductive call_result : Type :=
| Returned (l : TxAndBlockNotificationListener) (lg : list string)
| Blocked (l : TxAndBlockNotificationListener) (lg : list string)
| Panicked (p : panic).

Definition UpdateNotification (signal : TxNotification)
    (l : TxAndBlockNotificationListener) (lg : list string) : call_result :=
  match send signal (TxAndBlockNotifChan l) with
  | Sent c => Returned (MkListener c) lg
  | Parked c => Blocked (MkListener c) lg
  | SendPanics => Panicked SendOnClosed
  end.

Definition OnTransaction (transaction : string)
    (l : TxAndBlockNotificationListener) (lg : list string) : call_result :=
  match Unmarshal transaction with
  | inr err => Returned l (lg ++ ["Error unmarshalling transaction: " +:+ err])
  | inl tx =>
      let update := MkTxNotification NewTransaction (Some tx) 0 0 "" in
      UpdateNotification update l lg
  end.

Definition OnBlockAttached (walletID blockHeight : Z)
    (l : TxAndBlockNotificationListener) (lg : list string) : call_result :=
  UpdateNotification (MkTxNotification BlockAttached None walletID blockHeight "") l lg.

Definition OnTransactionConfirmed (walletID : Z) (hash : string) (blockHeight : Z)
    (l : TxAndBlockNotificationListener) (lg : list string) : call_result :=
  UpdateNotification (MkTxNotification TxConfirmed None walletID blockHeight hash) l lg.




End Listeners.


(** A decoder for the examples: the payload ["tx7"] decodes to transaction 7,
    anything else is malformed. *)
Definition demo_unmarshal (s : string) : nat + string :=
  if decide (s = "tx7") then inl 7 else inr "invalid character".


End Listeners.

(** ** The bridge of the three listener pages

    [ProposalsPage.listenForSyncNotifications],
    [AccountMixerPage.listenForMixerNotifications] and
    [OrderHistoryPage.listenForSyncNotifications] are the same code up to the
    names, the notification type and the body of the receive case.  Three
    kinds of threads run it: the UI thread ([OnNavigatedTo],
    [OnNavigatedFrom]), the engine's threads (the listener's callbacks, each a
    send on the listener's channel) and the goroutine [listenFor...] starts.
    A step of the model is one atomic action of one thread; an execution is a
    list of actions, any interleaving.

    The [select] follows Go's run time: a goroutine that enters it with a
    case ready takes one of the ready cases, any of them; with none ready it
    goes to sleep, and the first send or cancellation that concerns it wakes
    it with that case. *)

Module Bridge.
Import Chan.

Section Bridge.
Context {N L : Type}.

(** The capacity of the channel the listener's constructor makes (the
    constructors of the three listeners are outside these sources). *)
Variable capacity : nat.

(** The body of [case n := <-pg.XNotifChan], on the part [L] of the page it
    updates; [None] is the zero value read from a closed channel. *)
Variable handler : option N → L → L.

(** The engine's locking, outside these sources: whether a call of
    [RemoveNotificationListener] returns only once no callback of the engine
    is still blocked inside a listener. *)
Variable remove_waits : bool.

(** Where the goroutine is: about to enter the [select]; asleep in it, on
    channel [c] and on the done channel of context [k]; in the receive case
    with the value [v] received from channel [c]; or before one of the three
    statements of the cancellation case. *)
Inductive pc : Type :=
| AtFor
| Asleep (c k : nat)
| Handling (c : nat) (v : option N)
| AtRemove
| AtClose
| AtClear.

Inductive event : Type :=
| EvAdd (c : nat) (ok : bool)          (* AddNotificationListener answered *)
| EvLogError                           (* log.Errorf("Error adding ...") *)
| EvGo                                 (* go func() { ... }() *)
| EvSend (c : nat) (v : N)             (* a callback's send on channel c *)
| EvDispatch (c : nat) (v : option N)  (* the body of the receive case ran on v *)
| EvDone                               (* the cancellation case is taken *)
| EvRemove                             (* RemoveNotificationListener(PageID) *)
| EvClose (c : nat)                    (* close(pg.XNotifChan) *)
| EvClear.                             (* pg.XNotificationListener = nil *)

(** The listeners allocated so far (a listener is its channel), the contexts
    made so far with their cancelled flag, the page's fields, the listeners
    the engine holds under the page's ID, the goroutines alive, and the
    history. *)
Record state : Type := MkState {
  chans : list (chan N);
  ctxs : list bool;
  pg_listener : option nat;
  pg_ctx : option nat;
  pg_local : L;
  registry : list nat;
  loops : list pc;
  log : list event
}.

Definition init (l0 : L) : state := MkState [] [] None None l0 [] [] [].

Definition set_chans (x : list (chan N)) (s : state) : state :=
  MkState x (ctxs s) (pg_listener s) (pg_ctx s) (pg_local s) (registry s) (loops s) (log s).
Definition set_ctxs (x : list bool) (s : state) : state :=
  MkState (chans s) x (pg_listener s) (pg_ctx s) (pg_local s) (registry s) (loops s) (log s).
Definition set_listener (x : option nat) (s : state) : state :=
  MkState (chans s) (ctxs s) x (pg_ctx s) (pg_local s) (registry s) (loops s) (log s).
Definition set_ctx (x : option nat) (s : state) : state :=
  MkState (chans s) (ctxs s) (pg_listener s) x (pg_local s) (registry s) (loops s) (log s).
Definition set_local (x : L) (s : state) : state :=
  MkState (chans s) (ctxs s) (pg_listener s) (pg_ctx s) x (registry s) (loops s) (log s).
Definition set_registry (x : list nat) (s : state) : state :=
  MkState (chans s) (ctxs s) (pg_listener s) (pg_ctx s) (pg_local s) x (loops s) (log s).
Definition set_loops (x : list pc) (s : state) : state :=
  MkState (chans s) (ctxs s) (pg_listener s) (pg_ctx s) (pg_local s) (registry s) x (log s).
Definition add_log (x : list event) (s : state) : state :=
  MkState (chans s) (ctxs s) (pg_listener s) (pg_ctx s) (pg_local s) (registry s) (loops s)
    (log s ++ x).

Inductive result : Type :=
| Running (s : state)
| Stuck                (* the action cannot proceed in this state *)
| Crashed (p : panic).

(** Whether context [k] is cancelled. *)
Definition cancelled (k : nat) (s : state) : bool :=
  match ctxs s !! k with Some true => true | _ => false end.

(** The first goroutine asleep on channel [c], which a send on [c] wakes. *)
Fixpoint find_parked (c : nat) (ls : list pc) : option nat :=
  match ls with
  | [] => None
  | Asleep c' _ :: ls' => if decide (c' = c) then Some 0 else S <$> find_parked c ls'
  | _ :: ls' => S <$> find_parked c ls'
  end.

(** The cancellation of context [k] wakes the goroutines asleep on its done
    channel with the cancellation case. *)
Definition wake_done (k : nat) (p : pc) : pc :=
  match p with
  | Asleep _ k' => if decide (k' = k) then AtRemove else p
  | _ => p
  end.

Definition woken_done (k : nat) (ls : list pc) : list event :=
  omap (λ p, match p with
             | Asleep _ k' => if decide (k' = k) then Some EvDone else None
             | _ => None
             end) ls.

(** The close of channel [c] wakes the goroutines asleep on it with the
    zero value. *)
Definition wake_closed (c : nat) (p : pc) : pc :=
  match p with
  | Asleep c' _ => if decide (c' = c) then Handling c None else p
  | _ => p
  end.

(** [listenFor...Notifications]: the nil guard, the new listener, the
    registration with the engine (which [add_fails] answers), the goroutine.
    The engine's registry is taken at its most permissive: an
    [AddNotificationListener] that does not fail adds an entry under the
    page's ID whatever is there already, and [RemoveNotificationListener]
    removes what is under that ID. *)
Definition listenForNotifications (add_fails : bool) (s : state) : state :=
  match pg_listener s with
  | Some _ => s
  | None =>
      let c := length (chans s) in
      let s1 := set_listener (Some c) (set_chans (chans s ++ [make capacity]) s) in
      if add_fails
      then add_log [EvAdd c false; EvLogError] s1
      else add_log [EvAdd c true; EvGo]
             (set_loops (loops s1 ++ [AtFor]) (set_registry (registry s1 ++ [c]) s1))
  end.

(** [pg.ctx, pg.ctxCancel = context.WithCancel(context.TODO())], then
    [listenFor...Notifications].  The UI thread runs the two without a step
    of the goroutine in between that could tell the difference: the goroutine
    reads [pg.ctx] only when it enters the [select], and resets the listener
    field only as its last step.  What [OnNavigatedTo] does next (the first
    fetch, the toggles) is display state outside this model. *)
Definition OnNavigatedTo (add_fails : bool) (s : state) : state :=
  let k := length (ctxs s) in
  listenForNotifications add_fails (set_ctx (Some k) (set_ctxs (ctxs s ++ [false]) s)).

(** [pg.ctxCancel()].  The navigator calls it only on a page it has
    displayed, so [pg.ctxCancel] is set. *)
Definition OnNavigatedFrom (s : state) : result :=
  match pg_ctx s with
  | Some k =>
      Running (add_log (woken_done k (loops s))
                 (set_loops (wake_done k <$> loops s)
                    (set_ctxs (<[k := true]> (ctxs s)) s)))
  | None => Stuck
  end.

(** A callback of the engine on the [i]-th listener it holds: the blocking
    send of the adapter, as [UpdateNotification] has it.  The engine calls
    only listeners it holds.  A goroutine asleep on the channel receives the
    value at once. *)
Definition callback (i : nat) (v : N) (s : state) : result :=
  match registry s !! i with
  | None => Stuck
  | Some c =>
      match chans s !! c with
      | None => Stuck
      | Some ch =>
          if closed ch then Crashed SendOnClosed
          else
            match find_parked c (loops s) with
            | Some g =>
                Running (add_log [EvSend c v]
                           (set_loops (<[g := Handling c (Some v)]> (loops s)) s))
            | None =>
                match send v ch with
                | Sent ch' | Parked ch' =>
                    Running (add_log [EvSend c v] (set_chans (<[c := ch']> (chans s)) s))
                | SendPanics => Crashed SendOnClosed
                end
            end
      end
  end.

(** Whether a callback is blocked in its send on a listener of the engine. *)
Definition callback_parked (s : state) : bool :=
  existsb (λ c, match chans s !! c with
                | Some ch => negb (bool_decide (length (sendq ch) = 0))
                | None => false
                end) (registry s).

(** The goroutine [g] enters the [select], here with the case [b] ready and
    taken: the operands [pg.XNotifChan] and [pg.ctx.Done()] are evaluated
    first. *)
Definition loop_select (g : nat) (b : branch) (s : state) : result :=
  match loops s !! g with
  | Some AtFor =>
      match pg_listener s, pg_ctx s with
      | Some c, Some k =>
          match b with
          | BrRecv =>
              match chans s !! c with
              | Some ch =>
                  match recv ch with
                  | Some (v, ch') =>
                      Running (set_loops (<[g := Handling c v]> (loops s))
                                 (set_chans (<[c := ch']> (chans s)) s))
                  | None => Stuck
                  end
              | None => Stuck
              end
          | BrDone =>
              if cancelled k s
              then Running (add_log [EvDone] (set_loops (<[g := AtRemove]> (loops s)) s))
              else Stuck
          end
      | _, _ => Crashed NilDeref
      end
  | _ => Stuck
  end.

(** The goroutine [g] otherwise: it enters the [select] with no case ready
    and goes to sleep; it runs the body of the receive case; or it runs the
    next statement of the cancellation case. *)
Definition loop_run (g : nat) (s : state) : result :=
  match loops s !! g with
  | None => Stuck
  | Some AtFor =>
      match pg_listener s, pg_ctx s with
      | Some c, Some k =>
          match chans s !! c with
          | Some ch =>
              match ready ch (cancelled k s) with
              | [] => Running (set_loops (<[g := Asleep c k]> (loops s)) s)
              | _ :: _ => Stuck
              end
          | None => Stuck
          end
      | _, _ => Crashed NilDeref
      end
  | Some (Asleep _ _) => Stuck
  | Some (Handling c v) =>
      Running (add_log [EvDispatch c v]
                 (set_loops (<[g := AtFor]> (loops s))
                    (set_local (handler v (pg_local s)) s)))
  | Some AtRemove =>
      if remove_waits && callback_parked s then Stuck
      else Running (add_log [EvRemove]
                      (set_loops (<[g := AtClose]> (loops s)) (set_registry [] s)))
  | Some AtClose =>
      match pg_listener s with
      | None => Crashed NilDeref
      | Some c =>
          match chans s !! c with
          | None => Stuck
          | Some ch =>
              match close ch with
              | ClosePanics => Crashed DoubleClose
              | Closed ch' [] =>
                  Running (add_log [EvClose c]
                             (set_loops (wake_closed c <$> <[g := AtClear]> (loops s))
                                (set_chans (<[c := ch']> (chans s)) s)))
              | Closed _ (_ :: _) => Crashed SendOnClosed
              end
          end
      end
  | Some AtClear =>
      Running (add_log [EvClear] (set_loops (delete g (loops s)) (set_listener None s)))
  end.

Inductive action : Type :=
| NavigateTo (add_fails : bool)
| NavigateFrom
| Callback (i : nat) (v : N)
| LoopRun (g : nat)
| LoopSelect (g : nat) (b : branch).

Definition step (a : action) (s : state) : result :=
  match a with
  | NavigateTo add_fails => Running (OnNavigatedTo add_fails s)
  | NavigateFrom => OnNavigatedFrom s
  | Callback i v => callback i v s
  | LoopRun g => loop_run g s
  | LoopSelect g b => loop_select g b s
  end.

Fixpoint run (t : list action) (s : state) : result :=
  match t with
  | [] => Running s
  | a :: t' =>
      match step a s with
      | Running s' => run t' s'
      | r => r
      end
  end.


(** The notifications sent on channel [c], those the body of the receive
    case has run on, and the one a goroutine has received and not yet run
    the body on, in order. *)
Definition sent (c : nat) (lg : list event) : list N :=
  omap (λ e, match e with
             | EvSend c' v => if decide (c' = c) then Some v else None
             | _ => None
             end) lg.

Definition dispatched (c : nat) (lg : list event) : list (option N) :=
  omap (λ e, match e with
             | EvDispatch c' v => if decide (c' = c) then Some v else None
             | _ => None
             end) lg.

Definition in_hand (c : nat) (ls : list pc) : list (option N) :=
  omap (λ p, match p with
             | Handling c' v => if decide (c' = c) then Some v else None
             | _ => None
             end) ls.

(** The steps of the cancellation case in the history. *)
Inductive tstep : Type := TDone | TRemove | TClose | TClear.

Definition teardown_steps (lg : list event) : list tstep :=
  omap (λ e, match e with
             | EvDone => Some TDone
             | EvRemove => Some TRemove
             | EvClose _ => Some TClose
             | EvClear => Some TClear
             | _ => None
             end) lg.

Definition reachable (l0 : L) (s : state) : Prop :=
  ∃ t, run t (init l0) = Running s.

(** *** Executions *)

Lemma run_app t1 t2 s :
  run (t1 ++ t2) s = match run t1 s with Running s' => run t2 s' | r => r end.
Proof.
  revert s. induction t1 as [|a t1 IH]; intros s; simpl; [done|].
  destruct (step a s); auto.
Qed.

Lemma run_snoc t a s s' :
  run t s = Running s' → run (t ++ [a]) s = step a s'.
Proof. intros H. rewrite run_app, H. simpl. by destruct (step a s'). Qed.

Lemma run_snoc_inv t a s r :
  run (t ++ [a]) s = r →
  (∃ s', run t s = Running s' ∧ step a s' = r) ∨ (run t s = r ∧ ∀ s', r ≠ Running s').
Proof.
  rewrite run_app. destruct (run t s) as [s'| |p] eqn:Ht; simpl.
  - intros <-. left. exists s'. split; [done|]. by destruct (step a s').
  - intros <-. by right.
  - intros <-. by right.
Qed.

Lemma reachable_init l0 : reachable l0 (init l0).
Proof. by exists []. Qed.

Lemma reachable_step l0 a s s' :
  reachable l0 s → step a s = Running s' → reachable l0 s'.
Proof. intros [t Ht] Hs. exists (t ++ [a]). by rewrite (run_snoc _ _ _ _ Ht). Qed.

Lemma reachable_run l0 t s s' :
  reachable l0 s → run t s = Running s' → reachable l0 s'.
Proof.
  intros [t0 Ht0] Ht. exists (t0 ++ t). by rewrite run_app, Ht0.
Qed.

(** A property of the initial state that every step keeps holds in every
    reachable state. *)
Lemma reachable_invariant (P : state → Prop) l0 :
  P (init l0) →
  (∀ a s s', reachable l0 s → P s → step a s = Running s' → P s') →
  ∀ s, reachable l0 s → P s.
Proof.
  intros H0 Hstep s [t Ht]. revert s Ht.
  induction t as [|a t IH] using rev_ind; intros s Ht.
  - simpl in Ht. by simplify_eq.
  - destruct (run_snoc_inv _ _ _ _ Ht) as [(s1 & Ht1 & Ha)|[_ Hne]].
    + eapply Hstep; [by exists t | by apply IH | done].
    + by destruct (Hne s).
Qed.

(** *** The phases of the protocol

    In every reachable state the page is in one of five phases: no listener;
    a listener whose registration failed; a registered listener with its
    goroutine, before the close; the goroutine between the unregistration
    and the close; the goroutine between the close and the reset of the
    page's field. *)

Definition live_pc (c : nat) (ch : chan N) (p : pc) : Prop :=
  p = AtFor ∨ (∃ k, p = Asleep c k ∧ pending ch = [])
  ∨ (∃ v, p = Handling c v) ∨ p = AtRemove.

Inductive inv (s : state) : Prop :=
| inv_idle :
    pg_listener s = None → loops s = [] → registry s = [] → inv s
| inv_failed c :
    pg_listener s = Some c → loops s = [] → registry s = [] → inv s
| inv_live c ch k0 p :
    pg_listener s = Some c → loops s = [p] → registry s = [c] →
    chans s !! c = Some ch → closed ch = false → pg_ctx s = Some k0 →
    live_pc c ch p → inv s
| inv_closing c ch :
    pg_listener s = Some c → loops s = [AtClose] → registry s = [] →
    chans s !! c = Some ch → closed ch = false →
    (remove_waits = true → sendq ch = []) → inv s
| inv_clearing c :
    pg_listener s = Some c → loops s = [AtClear] → registry s = [] → inv s.

Lemma lookup_singleton_Some {X} (x y : X) (g : nat) :
  [x] !! g = Some y → g = 0 ∧ y = x.
Proof. destruct g as [|g]; simpl; [naive_solver | by destruct g]. Qed.

Lemma callback_parked_false s c ch :
  registry s = [c] → chans s !! c = Some ch →
  callback_parked s = false → sendq ch = [].
Proof.
  unfold callback_parked. intros -> Hc; simpl. rewrite Hc.
  rewrite orb_false_r. intros H%negb_false_iff%bool_decide_eq_true.
  by apply length_zero_iff_nil.
Qed.

Lemma recv_closed (c : chan N) v c' : recv c = Some (v, c') → closed c' = closed c.
Proof.
  unfold recv. destruct (buf c), (sendq c); intros ?; try by simplify_eq.
  destruct (closed c) eqn:E; by simplify_eq.
Qed.

Lemma send_closed (v : N) c c' :
  send v c = Sent c' ∨ send v c = Parked c' → closed c' = false.
Proof.
  unfold send. destruct (closed c) eqn:E.
  - by intros [?|?].
  - destruct (_ <? _); intros [Hs|Hs]; inversion Hs; by subst.
Qed.

Lemma ready_nil (ch : chan N) d : ready ch d = [] → recv ch = None ∧ d = false.
Proof.
  unfold ready. destruct (recv ch); [done|]. by destruct d.
Qed.

(** What a step of the goroutine yields when it is the only one. *)
Lemma find_parked_singleton c p :
  find_parked c [p] = match p with
                      | Asleep c' _ => if decide (c' = c) then Some 0 else None
                      | _ => None
                      end.
Proof. destruct p as [|c' k| | | |]; simpl; [done| |done..]. by destruct (decide (c' = c)). Qed.

Ltac inv_cases Hinv :=
  destruct Hinv as [Hl Hg Hr|c Hl Hg Hr|c ch k0 p Hl Hg Hr Hc Ho Hk Hp
                   |c ch Hl Hg Hr Hc Ho Hq|c Hl Hg Hr].

Ltac the_loop Hstep :=
  let Hi := fresh "Hi" in
  destruct (lookup _ _) as [?|] eqn:Hi in Hstep; [|done];
  apply lookup_singleton_Some in Hi as [-> ->].

Lemma inv_step a s s' : inv s → step a s = Running s' → inv s'.
Proof.
  intros Hinv Hstep. destruct a as [b| |i v|g|g b]; simpl in Hstep.
  - simplify_eq. unfold OnNavigatedTo, listenForNotifications; simpl.
    inv_cases Hinv; rewrite Hl.
    + destruct b; simpl.
      * eapply inv_failed; simpl; eauto.
      * apply (inv_live _ (length (chans s)) (make capacity) (length (ctxs s)) AtFor);
          simpl; rewrite ?Hg, ?Hr; simpl; auto.
        -- by apply list_lookup_middle.
        -- by left.
    + eapply inv_failed; simpl; eauto.
    + eapply inv_live; simpl; eauto.
    + eapply inv_closing; simpl; eauto.
    + eapply inv_clearing; simpl; eauto.
  - unfold OnNavigatedFrom in Hstep. destruct (pg_ctx s) as [k|] eqn:Hk0; simplify_eq.
    inv_cases Hinv.
    + eapply inv_idle; simpl; rewrite ?Hg; eauto.
    + eapply inv_failed; simpl; rewrite ?Hg; eauto.
    + apply (inv_live _ c ch k0 (wake_done k p)); simpl; rewrite ?Hg; auto.
      destruct Hp as [->|[(k' & -> & Hpe)|[[v ->]| ->]]]; simpl.
      * by left.
      * destruct (decide (k' = k)); [by right; right; right|].
        right; left; eauto.
      * right; right; left; eauto.
      * by right; right; right.
    + eapply inv_closing; simpl; rewrite ?Hg; eauto.
    + eapply inv_clearing; simpl; rewrite ?Hg; eauto.
  - unfold callback in Hstep.
    inv_cases Hinv; rewrite Hr in Hstep; try done.
    destruct (lookup _ _) as [c'|] eqn:Hi in Hstep; [|done].
    apply lookup_singleton_Some in Hi as [-> ->]. rewrite Hc, Ho, Hg in Hstep.
    rewrite find_parked_singleton in Hstep.
    destruct Hp as [->|[(k' & -> & Hpe)|[[v' ->]| ->]]]; simpl in Hstep.
    2: { rewrite decide_True in Hstep by done. simplify_eq.
         apply (inv_live _ c ch k0 (Handling c (Some v))); simpl; auto.
         right; right; left; eauto. }
    all: destruct (send v ch) as [ch'|ch'|] eqn:Hs; simplify_eq.
    all: try (apply (inv_live _ c ch' k0 AtFor); simpl; auto;
              [ apply list_lookup_insert_eq; by eapply lookup_lt_Some
              | eapply (send_closed v ch); eauto
              | by left ]).
    all: try (apply (inv_live _ c ch' k0 (Handling c v')); simpl; auto;
              [ apply list_lookup_insert_eq; by eapply lookup_lt_Some
              | eapply (send_closed v ch); eauto
              | right; right; left; eauto ]).
    all: apply (inv_live _ c ch' k0 AtRemove); simpl; auto;
           [ apply list_lookup_insert_eq; by eapply lookup_lt_Some
           | eapply (send_closed v ch); eauto
           | by right; right; right ].
  - unfold loop_run in Hstep.
    inv_cases Hinv; rewrite Hg in Hstep; try done.
    + the_loop Hstep.
      destruct Hp as [->|[(k' & -> & Hpe)|[[v' ->]| ->]]].
      * rewrite Hl, Hk, Hc in Hstep.
        destruct (ready ch (cancelled k0 s)) eqn:Hrd; simplify_eq.
        apply ready_nil in Hrd as [Hrv _]. apply recv_blocks in Hrv as [Hpe _].
        apply (inv_live _ c ch k0 (Asleep c k0)); simpl; auto.
        right; left; eauto.
      * done.
      * simplify_eq.
        apply (inv_live _ c ch k0 AtFor); simpl; auto. by left.
      * destruct (remove_waits && callback_parked s) eqn:Hw; simplify_eq.
        apply (inv_closing _ c ch); simpl; auto.
        intros ->. simpl in Hw. eapply callback_parked_false; eauto.
    + the_loop Hstep.
      rewrite Hl, Hc in Hstep. rewrite close_open in Hstep by done.
      destruct (sendq ch); simplify_eq.
      apply (inv_clearing _ c); simpl; auto.
    + the_loop Hstep. simplify_eq.
      apply inv_idle; simpl; auto.
  - unfold loop_select in Hstep.
    inv_cases Hinv; rewrite Hg in Hstep; try done.
    + the_loop Hstep.
      destruct Hp as [->|[(k' & -> & Hpe)|[[v' ->]| ->]]]; try done.
      rewrite Hl, Hk in Hstep. destruct b.
      * rewrite Hc in Hstep. destruct (recv ch) as [[v ch']|] eqn:Hrv; simplify_eq.
        apply (inv_live _ c ch' k0 (Handling c v)); simpl; auto.
        -- apply list_lookup_insert_eq. by eapply lookup_lt_Some.
        -- erewrite recv_closed; eauto.
        -- right; right; left; eauto.
      * destruct (cancelled k0 s); simplify_eq.
        apply (inv_live _ c ch k0 AtRemove); simpl; auto. by right; right; right.
    + by the_loop Hstep.
    + by the_loop Hstep.
Qed.

Lemma inv_init l0 : inv (init l0).
Proof. by apply inv_idle. Qed.

Lemma inv_reachable l0 s : reachable l0 s → inv s.
Proof.
  apply reachable_invariant; [apply inv_init|].
  intros a s1 s2 _ Hi Hs. by eapply inv_step.
Qed.

Lemma idle_of_nil s : inv s → pg_listener s = None → loops s = [] ∧ registry s = [].
Proof. intros [] Hl; by simplify_eq. Qed.



(** *** Projections of the history *)

Lemma sent_app c lg lg' : sent c (lg ++ lg') = sent c lg ++ sent c lg'.
Proof. apply omap_app. Qed.

Lemma dispatched_app c lg lg' :
  dispatched c (lg ++ lg') = dispatched c lg ++ dispatched c lg'.
Proof. apply omap_app. Qed.

Lemma teardown_steps_app lg lg' :
  teardown_steps (lg ++ lg') = teardown_steps lg ++ teardown_steps lg'.
Proof. apply omap_app. Qed.

Lemma sent_woken_done c k ls : sent c (woken_done k ls) = [].
Proof.
  induction ls as [|p ls IH]; [done|].
  destruct p as [|c' k'| | | |]; simpl; try done.
  destruct (decide (k' = k)); simpl; done.
Qed.

Lemma dispatched_woken_done c k ls : dispatched c (woken_done k ls) = [].
Proof.
  induction ls as [|p ls IH]; [done|].
  destruct p as [|c' k'| | | |]; simpl; try done.
  destruct (decide (k' = k)); simpl; done.
Qed.

Lemma in_hand_cons c p ls : in_hand c (p :: ls) = in_hand c [p] ++ in_hand c ls.
Proof. apply (omap_app _ [p] ls). Qed.

Lemma in_hand_wake_done c k ls : in_hand c (wake_done k <$> ls) = in_hand c ls.
Proof.
  induction ls as [|p ls IH]; [done|].
  rewrite fmap_cons, (in_hand_cons c (wake_done k p)), (in_hand_cons c p), IH.
  f_equal. destruct p as [|c' k'|c' v| | |]; simpl; try done.
  by destruct (decide (k' = k)).
Qed.

(** *** A failed registration is final *)

Definition failed (c : nat) (s : state) : Prop :=
  pg_listener s = Some c ∧ loops s = [] ∧ registry s = [].

Lemma failed_step c a s s' :
  failed c s → step a s = Running s' → failed c s' ∧ log s' = log s.
Proof.
  intros (Hl & Hg & Hr) Hstep. destruct a as [b| |i v|g|g b]; simpl in Hstep.
  - simplify_eq. unfold OnNavigatedTo, listenForNotifications; simpl.
    rewrite Hl. by repeat split.
  - unfold OnNavigatedFrom in Hstep. destruct (pg_ctx s); simplify_eq.
    rewrite Hg; simpl. rewrite app_nil_r. by repeat split.
  - unfold callback in Hstep. by rewrite Hr in Hstep.
  - unfold loop_run in Hstep. by rewrite Hg in Hstep.
  - unfold loop_select in Hstep. by rewrite Hg in Hstep.
Qed.

Lemma failed_run c t s s' :
  failed c s → run t s = Running s' → failed c s' ∧ log s' = log s.
Proof.
  revert s. induction t as [|a t IH]; intros s Hf Ht; simpl in Ht.
  - by simplify_eq.
  - destruct (step a s) as [s1| |] eqn:Ha; try done.
    destruct (failed_step _ _ _ _ Hf Ha) as [Hf1 Hl1].
    destruct (IH _ Hf1 Ht) as [? ?]. split; [done | congruence].
Qed.

Lemma OnNavigatedTo_add_error s :
  pg_listener s = None →
  log (OnNavigatedTo true s) = log s ++ [EvAdd (length (chans s)) false; EvLogError]
  ∧ pg_listener (OnNavigatedTo true s) = Some (length (chans s))
  ∧ loops (OnNavigatedTo true s) = loops s
  ∧ registry (OnNavigatedTo true s) = registry s.
Proof.
  intros Hl. unfold OnNavigatedTo, listenForNotifications; simpl.
  by rewrite Hl.
Qed.

(** *** A cancellation case that waits for a blocked callback *)

(** The goroutine stands before the unregistration, the engine's lock is
    held by a callback blocked in its send on the page's listener. *)
Definition blocked_teardown (c : nat) (s : state) : Prop :=
  remove_waits = true ∧ pg_listener s = Some c ∧ loops s = [AtRemove]
  ∧ registry s = [c]
  ∧ ∃ ch, chans s !! c = Some ch ∧ sendq ch ≠ [].

Lemma blocked_teardown_step c a s s' :
  blocked_teardown c s → step a s = Running s' →
  blocked_teardown c s' ∧ teardown_steps (log s') = teardown_steps (log s).
Proof.
  intros (Hw & Hl & Hg & Hr & ch & Hc & Hq) Hstep.
  destruct a as [b| |i v|g|g b]; simpl in Hstep.
  - simplify_eq. unfold OnNavigatedTo, listenForNotifications; simpl.
    rewrite Hl. split; [|done]. repeat split; eauto.
  - unfold OnNavigatedFrom in Hstep. destruct (pg_ctx s); simplify_eq.
    rewrite Hg; simpl. rewrite app_nil_r. split; [|done]. repeat split; eauto.
  - unfold callback in Hstep. rewrite Hr in Hstep.
    destruct (lookup _ _) as [c'|] eqn:Hi in Hstep; [|done].
    apply lookup_singleton_Some in Hi as [-> ->]. rewrite Hc, Hg in Hstep.
    destruct (closed ch); [done|]. simpl in Hstep.
    assert (∃ ch', Running s' = Running (add_log [EvSend c v]
                      (set_chans (<[c:=ch']> (chans s)) s))
                   ∧ sendq ch' ≠ []) as (ch' & Hs' & Hq').
    { unfold send in Hstep. destruct (closed ch); [done|].
      destruct (_ <? _); eexists; (split; [symmetry; exact Hstep|]); simpl;
        [done|]. by destruct (sendq ch). }
    simplify_eq. split.
    + repeat split; auto. exists ch'. split; [|done]. simpl.
      apply list_lookup_insert_eq. by eapply lookup_lt_Some.
    + cbn [log add_log set_chans]. rewrite teardown_steps_app. simpl.
      by rewrite app_nil_r.
  - unfold loop_run in Hstep. rewrite Hg in Hstep.
    destruct g as [|g]; simpl in Hstep; [|by destruct g].
    assert (callback_parked s = true) as Hp.
    { unfold callback_parked. rewrite Hr; simpl. rewrite Hc.
      destruct (sendq ch); [done|]. by rewrite bool_decide_eq_false_2. }
    by rewrite Hw, Hp in Hstep.
  - unfold loop_select in Hstep. rewrite Hg in Hstep.
    destruct g as [|g]; simpl in Hstep; [done | by destruct g].
Qed.

Lemma blocked_teardown_run c t s s' :
  blocked_teardown c s → run t s = Running s' →
  blocked_teardown c s' ∧ teardown_steps (log s') = teardown_steps (log s).
Proof.
  revert s. induction t as [|a t IH]; intros s Hb Ht; simpl in Ht.
  - by simplify_eq.
  - destruct (step a s) as [s1| |] eqn:Ha; try done.
    destruct (blocked_teardown_step _ _ _ _ Hb Ha) as [Hb1 Hl1].
    destruct (IH _ Hb1 Ht) as [? ?]. split; [done | congruence].
Qed.

(** While a listener is registered it is the page's listener: a callback
    that reaches the channel through the page's field, as on the mixer page
    which registers itself, sends on the same channel. *)
Lemma registered_is_page_listener l0 s c :
  reachable l0 s → c ∈ registry s → pg_listener s = Some c.
Proof.
  intros Hr Hin. pose proof (inv_reachable _ _ Hr) as Hinv.
  destruct Hinv as [Hl Hg Hrg|c' Hl Hg Hrg|c' ch k0 p Hl Hg Hrg Hc Ho Hk Hp
                   |c' ch Hl Hg Hrg Hc Ho Hq|c' Hl Hg Hrg]; rewrite Hrg in Hin;
    try by apply elem_of_nil in Hin.
  apply list_elem_of_singleton in Hin. by subst.
Qed.

(** *** Order of delivery *)

(** For every channel: the notifications the receive case has run on, then
    the one a goroutine has in hand, then what is still pending, are what was
    sent, in the same order; once the channel is closed, the first two remain
    a prefix of what was sent. *)
Definition fifo_at (s : state) (c : nat) : Prop :=
  match chans s !! c with
  | Some ch =>
      wf ch
      ∧ ∃ rest, Some <$> sent c (log s)
                = dispatched c (log s) ++ in_hand c (loops s) ++ (Some <$> rest)
                ∧ (closed ch = false → rest = pending ch)
  | None => sent c (log s) = [] ∧ dispatched c (log s) = [] ∧ in_hand c (loops s) = []
  end.

Definition fifo (s : state) : Prop := ∀ c, fifo_at s c.

Lemma fifo_at_frame s s' c :
  chans s' !! c = chans s !! c →
  sent c (log s') = sent c (log s) →
  dispatched c (log s') = dispatched c (log s) →
  in_hand c (loops s') = in_hand c (loops s) →
  fifo_at s c → fifo_at s' c.
Proof. unfold fifo_at. by intros -> -> -> ->. Qed.

Lemma fifo_init l0 : fifo (init l0).
Proof. intros c. unfold fifo_at; simpl. by destruct c. Qed.

Ltac log_simpl :=
  cbn [log loops chans add_log set_loops set_chans set_local set_listener
       set_registry set_ctxs set_ctx];
  rewrite ?sent_app, ?dispatched_app, ?sent_woken_done, ?dispatched_woken_done,
    ?in_hand_wake_done;
  simpl; rewrite ?app_nil_r.

Ltac fifo_frame Hf := eapply fifo_at_frame; [| | | |exact Hf]; log_simpl; try done.

Lemma fifo_step a s s' : inv s → fifo s → step a s = Running s' → fifo s'.
Proof.
  intros Hinv Hf Hstep c0. specialize (Hf c0).
  destruct a as [b| |i v|g|g b]; simpl in Hstep.
  - simplify_eq. unfold OnNavigatedTo, listenForNotifications; simpl.
    destruct (pg_listener s) eqn:Hl; [done|].
    destruct (idle_of_nil _ Hinv Hl) as [Hg _].
    assert (fifo_at (set_chans (chans s ++ [make capacity]) s) c0) as Hf'.
    { unfold fifo_at in *; simpl.
      destruct (decide (c0 < length (chans s))) as [Hlt|Hge].
      - by rewrite lookup_app_l.
      - rewrite (lookup_ge_None_2 (chans s)) in Hf by lia.
        destruct Hf as (-> & -> & ->).
        destruct (decide (c0 = length (chans s))) as [->|Hne].
        + rewrite list_lookup_middle by done. split; [apply wf_make|].
          by exists [].
        + rewrite lookup_ge_None_2; [done|]. rewrite length_app; simpl; lia. }
    destruct b; fifo_frame Hf'. by rewrite Hg.
  - unfold OnNavigatedFrom in Hstep. destruct (pg_ctx s); simplify_eq.
    fifo_frame Hf.
  - unfold callback in Hstep.
    inv_cases Hinv; rewrite Hr in Hstep; try done.
    destruct (lookup _ _) as [c'|] eqn:Hi in Hstep; [|done].
    apply lookup_singleton_Some in Hi as [-> ->]. rewrite Hc, Ho, Hg in Hstep.
    rewrite find_parked_singleton in Hstep.
    destruct (decide (c0 = c)) as [->|Hne].
    + unfold fifo_at in Hf. rewrite Hc, Hg in Hf.
      destruct Hf as (Hwf & rest & Heq & Hrest). specialize (Hrest Ho). subst rest.
      destruct Hp as [->|[(k' & -> & Hpe)|[[v' ->]| ->]]]; simpl in Hstep.
      2: { rewrite decide_True in Hstep by done. simplify_eq.
           unfold fifo_at; log_simpl. rewrite Hc. split; [done|].
           exists []. split; [|by intros _].
           destruct (decide (c = c)); [|done].
           rewrite fmap_app, Heq, Hpe. simpl. by rewrite ?app_nil_r. }
      all: destruct (send_open_pending v ch Hwf Ho) as (ch2 & Hs2 & Hp2 & _ & _ & Hwf2).
      all: assert (Running s' = Running (add_log [EvSend c v]
                      (set_chans (<[c:=ch2]> (chans s)) s))) as Hs'
             by (destruct Hs2 as [Hs2|Hs2]; rewrite Hs2 in Hstep; by symmetry).
      all: clear Hstep; simplify_eq.
      all: unfold fifo_at; log_simpl; rewrite Hg;
        rewrite list_lookup_insert_eq by (by eapply lookup_lt_Some).
      all: split; [done|]; exists (pending ch2); split; [|done].
      all: rewrite decide_True by done.
      all: rewrite fmap_app, Heq, Hp2, fmap_app; simpl in *.
      all: by rewrite <- ?app_assoc.
    + assert (in_hand c0 (loops s') = in_hand c0 (loops s)
              ∧ chans s' !! c0 = chans s !! c0
              ∧ sent c0 (log s') = sent c0 (log s)
              ∧ dispatched c0 (log s') = dispatched c0 (log s)) as (Hh & Hch & Hse & Hdi).
      { destruct Hp as [->|[(k' & -> & Hpe)|[[v' ->]| ->]]]; simpl in Hstep.
        2: { rewrite decide_True in Hstep by done. simplify_eq. log_simpl.
             rewrite Hg; simpl. rewrite !decide_False by done. by rewrite app_nil_r. }
        all: destruct (send v ch) as [ch'|ch'|]; simplify_eq; log_simpl.
        all: rewrite list_lookup_insert_ne by done.
        all: rewrite !decide_False by done.
        all: by rewrite ?app_nil_r. }
      by eapply fifo_at_frame.
  - unfold loop_run in Hstep.
    inv_cases Hinv; rewrite Hg in Hstep; try done.
    + the_loop Hstep.
      destruct Hp as [->|[(k' & -> & Hpe)|[[v' ->]| ->]]].
      * rewrite Hl, Hk, Hc in Hstep.
        destruct (ready ch (cancelled k0 s)); simplify_eq.
        fifo_frame Hf. by rewrite Hg.
      * done.
      * simplify_eq. unfold fifo_at in *. log_simpl. rewrite Hg in Hf. simpl in Hf.
        destruct (chans s !! c0) as [ch0|] eqn:Hc0.
        -- destruct Hf as (Hwf & rest & Heq & Hrest). split; [done|].
           exists rest. split; [|done].
           destruct (decide (c = c0)); simpl in *; by rewrite ?app_nil_r, <- ?app_assoc.
        -- destruct Hf as (-> & -> & Hh). destruct (decide (c = c0)); simplify_eq.
           simpl. by rewrite ?app_nil_r.
      * destruct (remove_waits && callback_parked s); simplify_eq.
        fifo_frame Hf. by rewrite Hg.
    + the_loop Hstep.
      rewrite Hl, Hc in Hstep. rewrite close_open in Hstep by done.
      destruct (sendq ch) eqn:Hsq; simplify_eq.
      destruct (decide (c0 = c)) as [->|Hne].
      * unfold fifo_at in *; log_simpl. rewrite Hc, Hg in Hf.
        rewrite list_lookup_insert_eq by (by eapply lookup_lt_Some).
        destruct Hf as (Hwf & rest & Heq & Hrest).
        split.
        { destruct Hwf as [Hle _]. split; simpl; [done | by left]. }
        exists rest. by split.
      * fifo_frame Hf; [by rewrite list_lookup_insert_ne | by rewrite Hg].
    + the_loop Hstep. simplify_eq.
      fifo_frame Hf. by rewrite Hg.
  - unfold loop_select in Hstep.
    inv_cases Hinv; rewrite Hg in Hstep; try done.
    + the_loop Hstep.
      destruct Hp as [->|[(k' & -> & Hpe)|[[v' ->]| ->]]]; try done.
      rewrite Hl, Hk in Hstep. destruct b.
      * rewrite Hc in Hstep. destruct (recv ch) as [[v ch']|] eqn:Hrv; simplify_eq.
        destruct (decide (c0 = c)) as [->|Hne].
        -- unfold fifo_at in *; log_simpl. rewrite Hc, Hg in Hf.
           rewrite list_lookup_insert_eq by (by eapply lookup_lt_Some).
           destruct Hf as (Hwf & rest & Heq & Hrest).
           split; [by eapply recv_wf|].
           destruct v as [x|].
           ++ destruct (recv_pending _ _ _ Hrv) as (Hp & Hcl & _).
              exists (pending ch'). rewrite decide_True by done.
              rewrite Heq, (Hrest Ho), Hp. by split.
           ++ destruct (recv_zero _ _ Hrv) as (_ & Hcl & _). congruence.
        -- fifo_frame Hf; [by rewrite list_lookup_insert_ne|].
           rewrite Hg; simpl. by rewrite decide_False.
      * destruct (cancelled k0 s); simplify_eq.
        fifo_frame Hf. by rewrite Hg.
    + by the_loop Hstep.
    + by the_loop Hstep.
Qed.

Lemma fifo_reachable l0 s : reachable l0 s → fifo s.
Proof.
  apply reachable_invariant; [apply fifo_init|].
  intros a s1 s2 Hr Hf Hs. eapply fifo_step; [|done|done].
  by eapply inv_reachable.
Qed.

(** *** The cancellation case in the history *)

Definition cycle : list tstep := [TDone; TRemove; TClose; TClear].

Fixpoint cycles (n : nat) : list tstep :=
  match n with
  | 0 => []
  | S n' => cycle ++ cycles n'
  end.

(** The steps of a cancellation case that has begun and not ended. *)
Definition teardown_tail (ls : list pc) : list tstep :=
  match ls with
  | [AtRemove] => [TDone]
  | [AtClose] => [TDone; TRemove]
  | [AtClear] => [TDone; TRemove; TClose]
  | _ => []
  end.

Definition shape (s : state) : Prop :=
  ∃ n, teardown_steps (log s) = cycles n ++ teardown_tail (loops s).

Lemma cycles_snoc n : cycles n ++ cycle = cycles (S n).
Proof.
  induction n as [|n IH]; [done|].
  change (cycles (S n)) with (cycle ++ cycles n).
  rewrite <- app_assoc, IH. done.
Qed.

Lemma shape_init l0 : shape (init l0).
Proof. by exists 0. Qed.

Ltac shape_simpl Hn :=
  cbn [log loops add_log set_loops set_chans set_local set_listener
       set_registry set_ctxs set_ctx];
  rewrite ?teardown_steps_app, ?Hn;
  repeat match goal with
         | H : loops ?s = _ |- context [loops ?s] => rewrite H
         end;
  simpl; rewrite ?app_nil_r, <- ?app_assoc.

Lemma shape_step a s s' : inv s → shape s → step a s = Running s' → shape s'.
Proof.
  intros Hinv [n Hn] Hstep. destruct a as [b| |i v|g|g b]; simpl in Hstep.
  - simplify_eq. unfold OnNavigatedTo, listenForNotifications; simpl.
    destruct (pg_listener s) eqn:Hl; [by exists n|].
    destruct (idle_of_nil _ Hinv Hl) as [Hg _]. rewrite Hg in Hn.
    exists n. destruct b; shape_simpl Hn; rewrite ?Hg; simpl; by rewrite ?app_nil_r.
  - unfold OnNavigatedFrom in Hstep. destruct (pg_ctx s) as [k|]; simplify_eq.
    exists n. inv_cases Hinv; rewrite Hg in Hn |- *; shape_simpl Hn; try done.
    destruct Hp as [->|[(k' & -> & Hpe)|[[v' ->]| ->]]]; simpl; try done;
      rewrite ?app_nil_r; try done.
    destruct (decide (k' = k)); simpl; by rewrite ?app_nil_r.
  - unfold callback in Hstep.
    inv_cases Hinv; rewrite Hr in Hstep; try done.
    destruct (lookup _ _) as [c'|] eqn:Hi in Hstep; [|done].
    apply lookup_singleton_Some in Hi as [-> ->]. rewrite Hc, Ho, Hg in Hstep.
    rewrite find_parked_singleton in Hstep. rewrite Hg in Hn.
    exists n.
    destruct Hp as [->|[(k' & -> & Hpe)|[[v' ->]| ->]]]; simpl in Hstep.
    2: { rewrite decide_True in Hstep by done. simplify_eq. by shape_simpl Hn. }
    all: destruct (send v ch); simplify_eq; by shape_simpl Hn.
  - unfold loop_run in Hstep.
    inv_cases Hinv; rewrite Hg in Hstep, Hn; try done.
    + the_loop Hstep.
      destruct Hp as [->|[(k' & -> & Hpe)|[[v' ->]| ->]]]; try done.
      * rewrite Hl, Hk, Hc in Hstep.
        destruct (ready ch (cancelled k0 s)); simplify_eq. by exists n.
      * simplify_eq. exists n. by shape_simpl Hn.
      * destruct (remove_waits && callback_parked s); simplify_eq.
        exists n. by shape_simpl Hn.
    + the_loop Hstep.
      rewrite Hl, Hc in Hstep. rewrite close_open in Hstep by done.
      destruct (sendq ch); simplify_eq.
      exists n. by shape_simpl Hn.
    + the_loop Hstep. simplify_eq.
      exists (S n). rewrite <- cycles_snoc. by shape_simpl Hn.
  - unfold loop_select in Hstep.
    inv_cases Hinv; rewrite Hg in Hstep, Hn; try done.
    + the_loop Hstep.
      destruct Hp as [->|[(k' & -> & Hpe)|[[v' ->]| ->]]]; try done.
      rewrite Hl, Hk in Hstep. destruct b.
      * rewrite Hc in Hstep. destruct (recv ch) as [[v ch']|]; simplify_eq.
        exists n. by shape_simpl Hn.
      * destruct (cancelled k0 s); simplify_eq.
        exists n. by shape_simpl Hn.
    + by the_loop Hstep.
    + by the_loop Hstep.
Qed.

Lemma shape_reachable l0 s : reachable l0 s → shape s.
Proof.
  apply reachable_invariant; [apply shape_init|].
  intros a s1 s2 Hr Hf Hs. eapply shape_step; [|done|done].
  by eapply inv_reachable.
Qed.

(** Once the cancellation case is taken and no callback is blocked in its
    send, the goroutine runs the three statements and ends. *)
Lemma teardown_runs s c :
  inv s → loops s = [AtRemove] → pg_listener s = Some c →
  callback_parked s = false →
  ∃ ch, chans s !! c = Some ch
    ∧ run [LoopRun 0; LoopRun 0; LoopRun 0] s
      = Running (add_log [EvClear]
                   (set_loops [] (set_listener None
                      (add_log [EvClose c]
                         (set_loops [AtClear]
                            (set_chans (<[c := MkChan (cap ch) (buf ch) [] true]> (chans s))
                               (add_log [EvRemove]
                                  (set_loops [AtClose] (set_registry [] s))))))))).
Proof.
  intros Hinv Hg Hl Hpk.
  destruct Hinv as [Hl' Hg' Hr|c' Hl' Hg' Hr|c' ch k0 p Hl' Hg' Hr Hc Ho Hk Hp
                   |c' ch Hl' Hg' Hr Hc Ho Hq|c' Hl' Hg' Hr];
    rewrite Hg' in Hg; try done.
  assert (c' = c) as -> by congruence.
  assert (p = AtRemove) as -> by congruence.
  exists ch. split; [done|].
  assert (sendq ch = []) as Hq by (by eapply callback_parked_false).
  set (s1 := add_log [EvRemove] (set_loops [AtClose] (set_registry [] s))).
  assert (step (LoopRun 0) s = Running s1) as H1.
  { cbn [step]. unfold loop_run. rewrite Hg'. simpl lookup. cbv iota.
    by rewrite Hpk, andb_false_r. }
  set (s2 := add_log [EvClose c]
               (set_loops [AtClear]
                  (set_chans (<[c := MkChan (cap ch) (buf ch) [] true]> (chans s)) s1))).
  assert (step (LoopRun 0) s1 = Running s2) as H2.
  { cbn [step]. unfold loop_run. simpl loops. simpl lookup. cbv iota.
    simpl pg_listener. simpl chans. rewrite Hl', Hc, close_open by done.
    by rewrite Hq. }
  assert (step (LoopRun 0) s2 = Running (add_log [EvClear]
            (set_loops [] (set_listener None s2)))) as H3.
  { cbn [step]. unfold loop_run. simpl loops. simpl lookup. cbv iota. done. }
  cbn [run]. rewrite H1, H2, H3. done.
Qed.

(** *** Draining *)






(** *** The [select] *)

(** A goroutine that enters the [select] with the context cancelled can take
    the cancellation case, can take the receive case exactly when the
    channel has something to receive, and does not go to sleep. *)
Lemma select_when_cancelled g s c k ch :
  loops s !! g = Some AtFor → pg_listener s = Some c → pg_ctx s = Some k →
  chans s !! c = Some ch → cancelled k s = true →
  (∃ s', step (LoopSelect g BrDone) s = Running s')
  ∧ ((∃ s', step (LoopSelect g BrRecv) s = Running s') ↔ is_Some (recv ch))
  ∧ step (LoopRun g) s = Stuck.
Proof.
  intros Hg Hl Hk Hc Hd. cbn [step]. unfold loop_select, loop_run.
  rewrite Hg, Hl, Hk, Hc, Hd.
  split; [eauto|]. split.
  - destruct (recv ch) as [[v ch']|]; split; eauto.
    + by intros [? ?].
    + by intros [? ?].
  - unfold ready. by destruct (recv ch).
Qed.

(** A goroutine asleep in the [select] takes no step of its own; the
    cancellation of its context wakes it with the cancellation case, and a
    callback's send wakes it with the receive case and the value sent. *)
Lemma asleep_woken s c k :
  loops s = [Asleep c k] →
  (∀ b, step (LoopSelect 0 b) s = Stuck)
  ∧ step (LoopRun 0) s = Stuck
  ∧ (pg_ctx s = Some k →
       ∃ s', step NavigateFrom s = Running s'
             ∧ loops s' = [AtRemove] ∧ log s' = log s ++ [EvDone])
  ∧ (∀ i v ch, registry s !! i = Some c → chans s !! c = Some ch →
       closed ch = false →
       ∃ s', step (Callback i v) s = Running s'
             ∧ loops s' = [Handling c (Some v)] ∧ chans s' = chans s).
Proof.
  intros Hg. cbn [step]. unfold loop_select, loop_run, OnNavigatedFrom, callback.
  rewrite Hg. simpl. repeat split.
  - intros ->. eexists. split; [done|]. simpl.
    by destruct (decide (k = k)).
  - intros i v ch -> -> ->. destruct (decide (c = c)); [|done].
    eexists. by split.
Qed.

(** *** A closed channel is never read again *)



(** *** The properties of the protocol *)



(** C3, as the code has it: in every execution the steps of the cancellation
    case occur in the history as rounds of: case taken, unregister, close,
    reset of the listener field, each once and in that order, the last round
    cut where the goroutine stands; and once the case is taken with no
    callback blocked in its send, whatever the channel buffers, the
    goroutine performs the unregistration, the close and the reset, in that
    order, and ends. *)
Theorem teardown_in_order_once l0 s :
  reachable l0 s →
  (∃ n, teardown_steps (log s) = cycles n ++ teardown_tail (loops s))
  ∧ (loops s = [AtRemove] → callback_parked s = false →
       ∃ c ch s',
         pg_listener s = Some c ∧ chans s !! c = Some ch
         ∧ run [LoopRun 0; LoopRun 0; LoopRun 0] s = Running s'
         ∧ log s' = log s ++ [EvRemove; EvClose c; EvClear]
         ∧ loops s' = [] ∧ pg_listener s' = None ∧ registry s' = []
         ∧ chans s' !! c = Some (MkChan (cap ch) (buf ch) [] true)).
Proof.
  intros Hr. pose proof (inv_reachable _ _ Hr) as Hinv.
  split; [by apply (shape_reachable l0)|].
  intros Hg Hpk.
  assert (∃ c, pg_listener s = Some c) as [c Hl].
  { destruct Hinv as [Hl' Hg' ?|c' Hl' Hg' ?|c' ch k0 p Hl' Hg' ? ? ? ? ?
                     |c' ch Hl' Hg' ? ? ? ?|c' Hl' Hg' ?];
      rewrite Hg' in Hg; simplify_eq; eauto. }
  destruct (teardown_runs s c Hinv Hg Hl Hpk) as (ch & Hc & Hrun).
  eexists c, ch, _. split; [done|]. split; [done|]. split; [exact Hrun|].
  cbn [log loops pg_listener registry chans add_log set_loops set_listener
       set_chans set_registry].
  rewrite <- !app_assoc. repeat split.
  apply list_lookup_insert_eq. by eapply lookup_lt_Some.
Qed.

(** C8: when the listener field is nil and the engine answers
    [AddNotificationListener] with an error, [OnNavigatedTo] logs the error
    and returns: the page goes on, no goroutine is started, nothing is
    registered, and in no later execution is anything received from the
    channel. *)
Theorem attach_error_degrades l0 s :
  reachable l0 s → pg_listener s = None →
  step (NavigateTo true) s = Running (OnNavigatedTo true s)
  ∧ log (OnNavigatedTo true s) = log s ++ [EvAdd (length (chans s)) false; EvLogError]
  ∧ loops (OnNavigatedTo true s) = []
  ∧ registry (OnNavigatedTo true s) = []
  ∧ (∀ t s', run t (OnNavigatedTo true s) = Running s' →
       loops s' = []
       ∧ dispatched (length (chans s)) (log s') = dispatched (length (chans s)) (log s)).
Proof.
  intros Hr Hl. pose proof (inv_reachable _ _ Hr) as Hinv.
  destruct (idle_of_nil _ Hinv Hl) as [Hg Hreg].
  destruct (OnNavigatedTo_add_error s Hl) as (Hlog & Hl' & Hg' & Hreg').
  rewrite Hg in Hg'. rewrite Hreg in Hreg'.
  split; [done|]. split; [done|]. split; [done|]. split; [done|].
  intros t s' Hrun.
  destruct (failed_run _ t _ _ (conj Hl' (conj Hg' Hreg')) Hrun)
    as [(_ & Hg2 & _) Hlog2].
  split; [done|].
  rewrite Hlog2, Hlog, dispatched_app. simpl. by rewrite app_nil_r.
Qed.

(** C9: after an [OnNavigatedTo] whose registration failed, the listener
    field stays set: whatever happens next, every [OnNavigatedTo] returns at
    the nil guard, nothing is ever registered, no goroutine is ever started
    and the history gains no event, so no notification is ever received. *)
Theorem failed_registration_is_final l0 s t s' :
  reachable l0 s → pg_listener s = None →
  run t (OnNavigatedTo true s) = Running s' →
  pg_listener s' = Some (length (chans s))
  ∧ registry s' = [] ∧ loops s' = []
  ∧ log s' = log (OnNavigatedTo true s)
  ∧ (∀ b, registry (OnNavigatedTo b s') = []
          ∧ loops (OnNavigatedTo b s') = []
          ∧ log (OnNavigatedTo b s') = log s').
Proof.
  intros Hr Hl Ht. pose proof (inv_reachable _ _ Hr) as Hinv.
  destruct (idle_of_nil _ Hinv Hl) as [Hg Hreg].
  destruct (OnNavigatedTo_add_error s Hl) as (Hlog & Hl' & Hg' & Hreg').
  rewrite Hg in Hg'. rewrite Hreg in Hreg'.
  destruct (failed_run _ t _ _ (conj Hl' (conj Hg' Hreg')) Ht)
    as [(Hl2 & Hg2 & Hr2) Hlog2].
  split; [done|]. split; [done|]. split; [done|]. split; [done|].
  intros b. unfold OnNavigatedTo, listenForNotifications; simpl. by rewrite Hl2.
Qed.

(** *** Panics *)




(** *** The goroutine, the registration and the page's state *)

(** X1: in every reachable state at most one goroutine is alive; nothing is
    registered without it; and while a listener is registered it is the
    page's listener, its channel is open, and its goroutine has not yet
    passed the unregistration. *)
Theorem one_goroutine_per_registration l0 s :
  reachable l0 s →
  length (loops s) ≤ 1
  ∧ (loops s = [] → registry s = [])
  ∧ (∀ c, c ∈ registry s →
       registry s = [c] ∧ pg_listener s = Some c
       ∧ ∃ p ch, loops s = [p] ∧ p ≠ AtClose ∧ p ≠ AtClear
                 ∧ chans s !! c = Some ch ∧ closed ch = false).
Proof.
  intros Hreach. pose proof (inv_reachable _ _ Hreach) as Hinv.
  inv_cases Hinv; rewrite Hg, Hr; simpl.
  all: split; [lia|]; split; [done|]; intros c' Hin; try by inversion Hin.
  apply list_elem_of_singleton in Hin as ->.
  split; [done|]. split; [done|]. exists p, ch.
  repeat split; try done.
  - destruct Hp as [->|[(k' & -> & _)|[[v ->]| ->]]]; done.
  - destruct Hp as [->|[(k' & -> & _)|[[v ->]| ->]]]; done.
Qed.

(** X2: the receive case never runs on the zero value of a closed channel: what
    the body has run on, and what a goroutine has received and is about to
    run it on, are notifications that a callback sent on that channel. *)
Theorem receive_case_never_sees_zero_value l0 s c :
  reachable l0 s →
  (∀ v, v ∈ dispatched c (log s) → ∃ n, v = Some n ∧ n ∈ sent c (log s))
  ∧ (∀ g v, loops s !! g = Some (Handling c v) →
       ∃ n, v = Some n ∧ n ∈ sent c (log s)).
Proof.
  intros Hr. pose proof (fifo_reachable _ _ Hr c) as Hf. unfold fifo_at in Hf.
  assert (∀ v, v ∈ dispatched c (log s) ++ in_hand c (loops s) →
               ∃ n, v = Some n ∧ n ∈ sent c (log s)) as Hall.
  { intros v Hv. destruct (chans s !! c) as [ch|].
    - destruct Hf as (_ & rest & Heq & _).
      assert (v ∈ Some <$> sent c (log s)) as Hin.
      { rewrite Heq, app_assoc. apply elem_of_app. by left. }
      apply list_elem_of_fmap in Hin as (n & -> & Hn). eauto.
    - destruct Hf as (_ & Hd & Hi). rewrite Hd, Hi in Hv. by inversion Hv. }
  split.
  - intros v Hv. apply Hall, elem_of_app. by left.
  - intros g v Hg. apply Hall, elem_of_app. right.
    apply list_elem_of_omap. exists (Handling c v). split.
    + by eapply list_elem_of_lookup_2.
    + by destruct (decide (c = c)).
Qed.

(** Everything the body of the receive case has run on, whatever the
    channel. *)
Definition dispatched_all (lg : list event) : list (option N) :=
  omap (λ e, match e with EvDispatch _ v => Some v | _ => None end) lg.

Lemma dispatched_all_app lg lg' :
  dispatched_all (lg ++ lg') = dispatched_all lg ++ dispatched_all lg'.
Proof. apply omap_app. Qed.

Lemma dispatched_all_woken_done k ls : dispatched_all (woken_done k ls) = [].
Proof.
  induction ls as [|p ls IH]; [done|].
  destruct p as [|c' k'| | | |]; simpl; try done.
  destruct (decide (k' = k)); simpl; done.
Qed.

Lemma dispatched_all_elem v lg :
  v ∈ dispatched_all lg → ∃ c, v ∈ dispatched c lg.
Proof.
  intros (e & He & Hv)%list_elem_of_omap. destruct e as [| | | |c v'| | | |]; try done.
  simplify_eq. exists c. apply list_elem_of_omap. exists (EvDispatch c v).
  split; [done|]. by destruct (decide (c = c)).
Qed.

Lemma local_fold_step a s s' :
  step a s = Running s' →
  ∃ vs, dispatched_all (log s') = dispatched_all (log s) ++ vs
        ∧ pg_local s' = foldl (λ l v, handler v l) (pg_local s) vs.
Proof.
  intros Hstep. destruct a as [b| |i v|g|g b]; simpl in Hstep.
  - simplify_eq. exists []. rewrite app_nil_r.
    unfold OnNavigatedTo, listenForNotifications; simpl.
    destruct (pg_listener s); [done|]. destruct b; simpl;
      by rewrite dispatched_all_app, app_nil_r.
  - unfold OnNavigatedFrom in Hstep. destruct (pg_ctx s); simplify_eq.
    exists []. simpl.
    by rewrite dispatched_all_app, dispatched_all_woken_done.
  - unfold callback in Hstep.
    destruct (registry s !! i) as [c|]; [|done].
    destruct (chans s !! c) as [ch|]; [|done].
    destruct (closed ch); [done|]. exists [].
    destruct (find_parked c (loops s)).
    + simplify_eq. simpl. by rewrite dispatched_all_app.
    + destruct (send v ch); simplify_eq; simpl; by rewrite dispatched_all_app.
  - unfold loop_run in Hstep.
    destruct (loops s !! g) as [[|c k|c v| | |]|]; try done.
    + exists []. destruct (pg_listener s) as [c|]; [|done].
      destruct (pg_ctx s) as [k|]; [|done].
      destruct (chans s !! c) as [ch|]; [|done].
      destruct (ready _ _); simplify_eq. simpl. by rewrite app_nil_r.
    + exists [v]. simplify_eq. simpl. by rewrite dispatched_all_app.
    + exists []. destruct (remove_waits && callback_parked s); simplify_eq.
      simpl. by rewrite dispatched_all_app.
    + exists []. destruct (pg_listener s) as [c|]; [|done].
      destruct (chans s !! c) as [ch|]; [|done].
      destruct (close ch) as [ch' [|? ?]|]; simplify_eq.
      simpl. by rewrite dispatched_all_app.
    + exists []. simplify_eq. simpl. by rewrite dispatched_all_app.
  - unfold loop_select in Hstep. exists [].
    destruct (loops s !! g) as [[|c k|c v| | |]|]; try done.
    destruct (pg_listener s) as [c|]; [|done].
    destruct (pg_ctx s) as [k|]; [|done]. destruct b.
    + destruct (chans s !! c) as [ch|]; [|done].
      destruct (recv ch) as [[v ch']|]; simplify_eq. simpl. by rewrite app_nil_r.
    + destruct (cancelled k s); simplify_eq. simpl. by rewrite dispatched_all_app.
Qed.

Lemma local_fold l0 s :
  reachable l0 s →
  pg_local s = foldl (λ l v, handler v l) l0 (dispatched_all (log s)).
Proof.
  revert s. apply reachable_invariant; [done|].
  intros a s s' _ IH Hstep.
  destruct (local_fold_step _ _ _ Hstep) as (vs & -> & ->).
  by rewrite foldl_app, IH.
Qed.

Lemma dispatched_all_sent l0 s :
  reachable l0 s → ∃ ns, dispatched_all (log s) = Some <$> ns.
Proof.
  intros Hr.
  assert (∀ v, v ∈ dispatched_all (log s) → is_Some v) as Hall.
  { intros v [c Hv]%dispatched_all_elem.
    pose proof (fifo_reachable _ _ Hr c) as Hf. unfold fifo_at in Hf.
    destruct (chans s !! c) as [ch|].
    - destruct Hf as (_ & rest & Heq & _).
      assert (v ∈ Some <$> sent c (log s)) as Hin.
      { rewrite Heq. apply elem_of_app. by left. }
      apply list_elem_of_fmap in Hin as (n & -> & _). eauto.
    - destruct Hf as (_ & Hd & _). rewrite Hd in Hv. by inversion Hv. }
  induction (dispatched_all (log s)) as [|v vs IH]; [by exists []|].
  destruct IH as [ns ->].
  { intros v' Hv'. apply Hall. by right. }
  destruct (Hall v) as [n ->]; [by left|]. by exists (n :: ns).
Qed.


(** *** A whole visit of the page *)

(** One notification while the goroutine sleeps in its [select]: the
    callback hands it over, the goroutine runs the body and goes back to
    sleep. *)
Definition deliver (vs : list N) : list action :=
  vs ≫= λ v, [Callback 0 v; LoopRun 0; LoopRun 0].

(** The goroutine sleeps on the page's listener and context, the channel
    empty, the context live. *)
Definition asleep_at (c k : nat) (s : state) : Prop :=
  pg_listener s = Some c ∧ pg_ctx s = Some k ∧ cancelled k s = false
  ∧ registry s = [c] ∧ loops s = [Asleep c k]
  ∧ chans s !! c = Some (make capacity).

Lemma sent_deliver_log c vs :
  sent c (vs ≫= λ v, [EvSend c v; EvDispatch c (Some v)]) = vs.
Proof.
  induction vs as [|v vs IH]; [done|].
  rewrite bind_cons, sent_app, IH. simpl. by destruct (decide (c = c)).
Qed.

Lemma dispatched_deliver_log c vs :
  dispatched c (vs ≫= λ v, [EvSend c v; EvDispatch c (Some v)]) = Some <$> vs.
Proof.
  induction vs as [|v vs IH]; [done|].
  rewrite bind_cons, dispatched_app, IH. simpl. by destruct (decide (c = c)).
Qed.

Lemma deliver_run vs s c k :
  asleep_at c k s →
  ∃ s', run (deliver vs) s = Running s'
        ∧ asleep_at c k s'
        ∧ log s' = log s ++ (vs ≫= λ v, [EvSend c v; EvDispatch c (Some v)])
        ∧ pg_local s' = foldl (λ l n, handler (Some n) l) (pg_local s) vs
        ∧ chans s' = chans s ∧ ctxs s' = ctxs s.
Proof.
  revert s. induction vs as [|v vs IH]; intros s Has.
  - exists s. simpl. by rewrite app_nil_r.
  - destruct Has as (Hl & Hk & Hd & Hr & Hg & Hc).
    set (s1 := add_log [EvSend c v] (set_loops [Handling c (Some v)] s)).
    assert (step (Callback 0 v) s = Running s1) as H1.
    { cbn [step]. unfold callback. rewrite Hr. simpl lookup. cbv iota.
      rewrite Hc, Hg. simpl. by destruct (decide (c = c)). }
    set (s2 := add_log [EvDispatch c (Some v)]
                 (set_loops [AtFor] (set_local (handler (Some v) (pg_local s1)) s1))).
    assert (step (LoopRun 0) s1 = Running s2) as H2 by done.
    assert (step (LoopRun 0) s2 = Running (set_loops [Asleep c k] s2)) as H3.
    { cbn [step]. unfold loop_run. simpl lookup. cbv iota.
      change (pg_listener s2) with (pg_listener s).
      change (pg_ctx s2) with (pg_ctx s). change (chans s2) with (chans s).
      rewrite Hl, Hk, Hc. change (cancelled k s2) with (cancelled k s).
      by rewrite Hd. }
    destruct (IH (set_loops [Asleep c k] s2)) as (s' & Hrun & Has' & Hlog & Hloc & Hch & Hcx).
    { by repeat split. }
    exists s'. split.
    { change (deliver (v :: vs))
        with (Callback 0 v :: LoopRun 0 :: LoopRun 0 :: deliver vs).
      cbn [run]. by rewrite H1, H2, H3. }
    split; [done|]. split.
    { rewrite Hlog. simpl. by rewrite <- !app_assoc. }
    done.
Qed.

(** X4: a visit of the page that goes well: from a state where the page has no
    listener, the page is displayed, the goroutine goes to sleep, the
    notifications [vs] arrive one after the other, the page is left and the
    goroutine runs the cancellation case.  Every notification is handed to
    the receive case, in order; in the end nothing is registered, no
    goroutine is left, the listener field is nil again and the channel is
    closed and empty. *)
Theorem attach_deliver_detach l0 s vs :
  reachable l0 s → pg_listener s = None →
  ∃ s', run (NavigateTo false :: LoopRun 0
             :: deliver vs ++ [NavigateFrom; LoopRun 0; LoopRun 0; LoopRun 0]) s
        = Running s'
        ∧ pg_listener s' = None ∧ registry s' = [] ∧ loops s' = []
        ∧ chans s' !! length (chans s) = Some (MkChan capacity [] [] true)
        ∧ sent (length (chans s)) (log s') = vs
        ∧ dispatched (length (chans s)) (log s') = Some <$> vs
        ∧ pg_local s' = foldl (λ l n, handler (Some n) l) (pg_local s) vs.
Proof.
  intros Hr Hl. pose proof (inv_reachable _ _ Hr) as Hinv.
  destruct (idle_of_nil _ Hinv Hl) as [Hg Hreg].
  pose proof (fifo_reachable _ _ Hr (length (chans s))) as Hf.
  unfold fifo_at in Hf. rewrite lookup_ge_None_2 in Hf by lia.
  destruct Hf as (Hsent & Hdisp & _).
  set (c := length (chans s)) in *. set (k := length (ctxs s)).
  set (s1 := OnNavigatedTo false s).
  assert (step (NavigateTo false) s = Running s1) as H1 by done.
  assert (chans s1 = chans s ++ [make capacity] ∧ ctxs s1 = ctxs s ++ [false]
          ∧ pg_listener s1 = Some c ∧ pg_ctx s1 = Some k ∧ registry s1 = [c]
          ∧ loops s1 = [AtFor] ∧ log s1 = log s ++ [EvAdd c true; EvGo]
          ∧ pg_local s1 = pg_local s) as (Hc1 & Hx1 & Hl1 & Hk1 & Hr1 & Hg1 & Hlog1 & Hloc1).
  { unfold s1, OnNavigatedTo, listenForNotifications. simpl. rewrite Hl. simpl.
    by rewrite Hg, Hreg. }
  assert (chans s1 !! c = Some (make capacity)) as Hch1.
  { rewrite Hc1. by apply list_lookup_middle. }
  assert (cancelled k s1 = false) as Hd1.
  { unfold cancelled. rewrite Hx1.
    by rewrite (list_lookup_middle (ctxs s) [] false k). }
  assert (step (LoopRun 0) s1 = Running (set_loops [Asleep c k] s1)) as H2.
  { cbn [step]. unfold loop_run. rewrite Hg1. simpl lookup. cbv iota.
    rewrite Hl1, Hk1, Hch1, Hd1. done. }
  destruct (deliver_run vs (set_loops [Asleep c k] s1) c k)
    as (s2 & Hrun2 & (Hl2 & Hk2 & Hd2 & Hr2 & Hg2 & Hch2) & Hlog2 & Hloc2 & Hc2 & Hx2).
  { by repeat split. }
  set (s3 := add_log (woken_done k (loops s2))
               (set_loops (wake_done k <$> loops s2)
                  (set_ctxs (<[k := true]> (ctxs s2)) s2))).
  assert (step NavigateFrom s2 = Running s3) as H3.
  { cbn [step]. unfold OnNavigatedFrom. by rewrite Hk2. }
  assert (loops s3 = [AtRemove] ∧ log s3 = log s2 ++ [EvDone]) as [Hg3 Hlog3].
  { unfold s3. simpl. rewrite Hg2. simpl. by destruct (decide (k = k)). }
  assert (reachable l0 s3) as Hr3.
  { eapply reachable_step; [|exact H3].
    eapply reachable_run; [|exact Hrun2].
    eapply reachable_step; [|exact H2].
    by eapply reachable_step. }
  destruct (teardown_runs s3 c) as (ch3 & Hch3 & Hrun3).
  { by eapply inv_reachable. }
  { done. }
  { done. }
  { unfold callback_parked. change (registry s3) with (registry s2).
    change (chans s3) with (chans s2). rewrite Hr2. simpl. by rewrite Hch2. }
  change (chans s3) with (chans s2) in Hch3. rewrite Hch2 in Hch3.
  injection Hch3 as <-.
  eexists. split.
  { cbn [run]. rewrite H1, H2. rewrite run_app. simpl in Hrun2. rewrite Hrun2.
    cbn [run]. rewrite H3. exact Hrun3. }
  cbn [log loops pg_listener registry chans pg_local add_log set_loops set_listener
       set_chans set_registry].
  split; [done|]. split; [done|]. split; [done|]. split.
  { change (chans s3) with (chans s2). rewrite Hc2. simpl. rewrite Hc1.
    rewrite list_lookup_insert_eq; [done|]. rewrite length_app. simpl. lia. }
  rewrite Hlog3, Hlog2. simpl. rewrite Hlog1.
  rewrite !sent_app, !dispatched_app, Hsent, Hdisp.
  rewrite sent_deliver_log, dispatched_deliver_log. simpl.
  destruct (decide (c = c)); [|done]. rewrite !app_nil_r.
  split; [done|]. split; [done|]. rewrite Hloc2. simpl. by rewrite Hloc1.
Qed.

(** X5: the page is left while the goroutine sleeps in its [select], and
    displayed again before the goroutine has run the cancellation case: the
    [OnNavigatedTo] finds the listener field still set and registers
    nothing, and the goroutine then unregisters, closes and resets the
    field.  The page is displayed, with a live context, and has no
    listener, no registration and no goroutine. *)
Theorem reattach_before_teardown_detaches l0 s c k b :
  reachable l0 s → loops s = [Asleep c k] → pg_ctx s = Some k →
  ∃ s', run [NavigateFrom; NavigateTo b; LoopRun 0; LoopRun 0; LoopRun 0] s
        = Running s'
        ∧ pg_listener s' = None ∧ registry s' = [] ∧ loops s' = []
        ∧ pg_ctx s' = Some (length (ctxs s))
        ∧ cancelled (length (ctxs s)) s' = false
        ∧ log s' = log s ++ [EvDone; EvRemove; EvClose c; EvClear].
Proof.
  intros Hr Hg Hk. pose proof (inv_reachable _ _ Hr) as Hinv.
  assert (pg_listener s = Some c ∧ registry s = [c]
          ∧ ∃ ch, chans s !! c = Some ch ∧ sendq ch = []) as (Hl & Hreg & ch & Hc & Hq).
  { destruct Hinv as [Hl' Hg' ?|c' Hl' Hg' ?|c' ch k0 p Hl' Hg' Hr' Hc' Ho Hk' Hp
                     |c' ch Hl' Hg' ? ? ? ?|c' Hl' Hg' ?];
      rewrite Hg' in Hg; simplify_eq.
    destruct Hp as [?|[(k' & Heq & Hpe)|[[v ?]| ?]]]; simplify_eq.
    split; [done|]. split; [done|]. exists ch. split; [done|].
    unfold pending in Hpe. by apply app_eq_nil in Hpe as [_ ?]. }
  set (s1 := add_log (woken_done k (loops s))
               (set_loops (wake_done k <$> loops s)
                  (set_ctxs (<[k := true]> (ctxs s)) s))).
  assert (step NavigateFrom s = Running s1) as H1.
  { cbn [step]. unfold OnNavigatedFrom. by rewrite Hk. }
  assert (loops s1 = [AtRemove] ∧ log s1 = log s ++ [EvDone]) as [Hg1 Hlog1].
  { unfold s1. simpl. rewrite Hg. simpl. by destruct (decide (k = k)). }
  set (s2 := set_ctx (Some (length (ctxs s1))) (set_ctxs (ctxs s1 ++ [false]) s1)).
  assert (step (NavigateTo b) s1 = Running s2) as H2.
  { cbn [step]. unfold OnNavigatedTo, listenForNotifications. simpl. by rewrite Hl. }
  assert (reachable l0 s2) as Hr2.
  { eapply reachable_step; [|exact H2]. by eapply reachable_step. }
  destruct (teardown_runs s2 c) as (ch2 & Hch2 & Hrun2).
  { by eapply inv_reachable. }
  { done. }
  { done. }
  { unfold callback_parked. change (registry s2) with (registry s).
    change (chans s2) with (chans s). rewrite Hreg. simpl. rewrite Hc, Hq. done. }
  eexists. split.
  { cbn [run]. rewrite H1, H2. exact Hrun2. }
  cbn [log loops pg_listener registry chans pg_ctx ctxs add_log set_loops
       set_listener set_chans set_registry set_ctx set_ctxs s2 s1].
  rewrite length_insert.
  split; [done|]. split; [done|]. split; [done|]. split; [done|]. split.
  - unfold cancelled. simpl.
    rewrite (list_lookup_middle (<[k:=true]> (ctxs s)) [] false (length (ctxs s)));
      [done|]. by rewrite length_insert.
  - rewrite Hg. simpl. destruct (decide (k = k)); [|done].
    by rewrite <- !app_assoc.
Qed.

End Bridge.

(** An engine whose [RemoveNotificationListener] returns only once no
    callback is still blocked inside a listener, as when it takes the lock
    under which the engine runs its callbacks.  The executions of
    [Scenarios] are run with it where they name it; what the theorems say of
    the other kind of engine they say for [false]. *)
Definition engine_locks : bool := true.

End Bridge.

(** ** The three pages as instances of the bridge

    For each page: the notification its channel carries, the part of the
    page the receive case updates, and the body of the receive case.  [zero]
    is the status whose constant is 0, which a receive from a closed channel
    would yield. *)

Module ProposalsPage.

Inductive ProposalStatus : Type :=
| Synced
| NewProposal
| VoteStarted
| VoteFinished.

#[global] Instance ProposalStatus_eq_dec : EqDecision ProposalStatus.
Proof. solve_decision. Defined.

Record ProposalNotification : Type := MkNotification {
  ProposalName : string;
  Status : ProposalStatus
}.

Record page : Type := MkPage {
  syncCompleted : bool;
  isSyncing : bool;
  fetches : nat;   (* calls of pg.fetchProposals() by the loop *)
  reloads : nat    (* calls of pg.ParentWindow().Reload() by the loop *)
}.

(** [if n.ProposalStatus == wallet.Synced { ... }] *)
Definition handle (n : ProposalNotification) (pg : page) : page :=
  if decide (Status n = Synced)
  then MkPage true false (S (fetches pg)) (S (reloads pg))
  else pg.

Definition handler (zero : ProposalStatus) (v : option ProposalNotification)
    (pg : page) : page :=
  handle (default (MkNotification "" zero) v) pg.

Definition new_page : page := MkPage false false 0 0.

Definition init : @Bridge.state ProposalNotification page := Bridge.init new_page.

Definition run (capacity : nat) (zero : ProposalStatus) (remove_waits : bool)
    (t : list Bridge.action) : Bridge.result :=
  Bridge.run capacity (handler zero) remove_waits t init.

End ProposalsPage.

Module AccountMixerPage.

Definition AccountMixerPageID : string := "AccountMixer".

Inductive MixerRunStatus : Type :=
| MixerStarted
| MixerEnded.

#[global] Instance MixerRunStatus_eq_dec : EqDecision MixerRunStatus.
Proof. solve_decision. Defined.

Record MixerNotification : Type := MkNotification {
  RunStatus : MixerRunStatus
}.

Record page : Type := MkPage {
  mixerCompleted : bool;
  toasts : list string;
  reloads : nat
}.

(** The two [if]s of the receive case, one after the other. *)
Definition handle (n : MixerNotification) (pg : page) : page :=
  let pg1 :=
    if decide (RunStatus n = MixerStarted)
    then MkPage (mixerCompleted pg) (toasts pg ++ ["Mixer start Successfully"])
                (S (reloads pg))
    else pg in
  if decide (RunStatus n = MixerEnded)
  then MkPage true (toasts pg1) (S (reloads pg1))
  else pg1.

Definition handler (zero : MixerRunStatus) (v : option MixerNotification)
    (pg : page) : page :=
  handle (default (MkNotification zero) v) pg.

Definition new_page : page := MkPage false [] 0.

Definition run (capacity : nat) (zero : MixerRunStatus) (remove_waits : bool)
    (t : list Bridge.action) : Bridge.result :=
  Bridge.run capacity (handler zero) remove_waits t (Bridge.init new_page).

End AccountMixerPage.

Module OrderHistoryPage.

Definition OrderHistoryPageID : string := "OrderHistory".

Inductive OrderSyncStatus : Type :=
| OrderStatusSynced
| OrderStatusOther (code : nat).

#[global] Instance OrderSyncStatus_eq_dec : EqDecision OrderSyncStatus.
Proof. solve_decision. Defined.

Record OrderNotification : Type := MkNotification {
  OrderStatus : OrderSyncStatus
}.

Record page : Type := MkPage {
  fetches : nat;   (* calls of pg.fetchOrders(false) by the loop *)
  reloads : nat
}.

(** [if n.OrderStatus == wallet.OrderStatusSynced { ... }] *)
Definition handle (n : OrderNotification) (pg : page) : page :=
  if decide (OrderStatus n = OrderStatusSynced)
  then MkPage (S (fetches pg)) (S (reloads pg))
  else pg.

Definition handler (zero : OrderSyncStatus) (v : option OrderNotification)
    (pg : page) : page :=
  handle (default (MkNotification zero) v) pg.

Definition new_page : page := MkPage 0 0.

Definition run (capacity : nat) (zero : OrderSyncStatus) (remove_waits : bool)
    (t : list Bridge.action) : Bridge.result :=
  Bridge.run capacity (handler zero) remove_waits t (Bridge.init new_page).

End OrderHistoryPage.

(** ** The transactions page

    [TransactionsPage.listenForTxNotifications] has no listener of its own:
    every [OnResume] starts a goroutine that reads the channel
    [pg.Receiver.NotificationsUpdate], which the page shares and neither
    makes nor closes, until the page's context is cancelled. *)

Module TxPage.
Import Chan.

(** What the channel carries is an [interface{}]; the loop's type switch
    has one case. *)
Inductive notification : Type :=
| NewTransaction (walletID : Z)   (* wallet.NewTransaction, n.Transaction.WalletID *)
| OtherNotification.

(** Where a goroutine is: about to enter the [select]; asleep in it on the
    done channel of context [k]; or past it with the value received. *)
Inductive pc : Type :=
| AtFor
| Asleep (k : nat)
| Handling (v : option notification).

Record state : Type := MkState {
  NotificationsUpdate : chan notification;
  listeners : list string;   (* the names registered with the engine *)
  ctxs : list bool;
  pg_ctx : option nat;
  selectedWallet : Z;        (* pg.wallets[pg.walletDropDown.SelectedIndex()].ID *)
  loads : nat;               (* calls of pg.loadTransactions() by a loop *)
  refreshes : nat;           (* calls of pg.RefreshWindow() by a loop *)
  loops : list pc
}.

Inductive result : Type :=
| Running (s : state)
| Stuck
| Crashed (p : panic).

Definition set_loops (x : list pc) (s : state) : state :=
  MkState (NotificationsUpdate s) (listeners s) (ctxs s) (pg_ctx s)
    (selectedWallet s) (loads s) (refreshes s) x.

Definition set_chan (x : chan notification) (s : state) : state :=
  MkState x (listeners s) (ctxs s) (pg_ctx s)
    (selectedWallet s) (loads s) (refreshes s) (loops s).

Definition cancelled (k : nat) (s : state) : bool :=
  match ctxs s !! k with Some true => true | _ => false end.

Definition asleep_on (k : nat) (p : pc) : bool :=
  match p with
  | Asleep k' => bool_decide (k' = k)
  | _ => false
  end.

(** The first goroutine asleep in its [select], which a send wakes. *)
Fixpoint find_asleep (ls : list pc) : option nat :=
  match ls with
  | [] => None
  | Asleep _ :: _ => Some 0
  | _ :: ls' => S <$> find_asleep ls'
  end.

(** [go func() { for { ... } }()]: no guard, a new goroutine at every call. *)
Definition listenForTxNotifications (s : state) : state :=
  set_loops (loops s ++ [AtFor]) s.

(** [pg.ctx, pg.ctxCancel = context.WithCancel(context.TODO())] and
    [pg.listenForTxNotifications()]; the wallet list and the first
    [loadTransactions] of [OnResume] are display state outside this model. *)
Definition OnResume (s : state) : state :=
  listenForTxNotifications
    (MkState (NotificationsUpdate s) (listeners s) (ctxs s ++ [false])
       (Some (length (ctxs s))) (selectedWallet s) (loads s) (refreshes s)
       (loops s)).

(** [pg.ctxCancel()]: the goroutines asleep on the context's done channel
    wake with the cancellation case, which returns. *)
Definition OnClose (s : state) : result :=
  match pg_ctx s with
  | Some k =>
      Running (MkState (NotificationsUpdate s) (listeners s) (<[k := true]> (ctxs s))
                 (pg_ctx s) (selectedWallet s) (loads s) (refreshes s)
                 (List.filter (λ p, negb (asleep_on k p)) (loops s)))
  | None => Stuck
  end.

(** A send on the shared channel by the wallet's backend; a goroutine asleep
    in its [select] receives the value at once. *)
Definition produce (v : notification) (s : state) : result :=
  if closed (NotificationsUpdate s) then Crashed SendOnClosed
  else
    match find_asleep (loops s) with
    | Some g => Running (set_loops (<[g := Handling (Some v)]> (loops s)) s)
    | None =>
        match send v (NotificationsUpdate s) with
        | Sent ch | Parked ch => Running (set_chan ch s)
        | SendPanics => Crashed SendOnClosed
        end
    end.

(** The type switch after the [select]. *)
Definition handle (v : option notification) (s : state) : state :=
  match v with
  | Some (NewTransaction walletID) =>
      if decide (selectedWallet s = walletID)
      then MkState (NotificationsUpdate s) (listeners s) (ctxs s) (pg_ctx s)
             (selectedWallet s) (S (loads s)) (S (refreshes s)) (loops s)
      else s
  | _ => s
  end.

(** The goroutine [g] enters the [select] with the case [b] ready and
    taken: the receive case falls through to the type switch, the
    cancellation case returns. *)
Definition loop_select (g : nat) (b : branch) (s : state) : result :=
  match loops s !! g with
  | Some AtFor =>
      match pg_ctx s with
      | Some k =>
          match b with
          | BrRecv =>
              match recv (NotificationsUpdate s) with
              | Some (v, ch) =>
                  Running (set_loops (<[g := Handling v]> (loops s)) (set_chan ch s))
              | None => Stuck
              end
          | BrDone =>
              if cancelled k s
              then Running (set_loops (delete g (loops s)) s)
              else Stuck
          end
      | None => Crashed NilDeref
      end
  | _ => Stuck
  end.

(** The goroutine [g] otherwise: it enters the [select] with no case ready
    and goes to sleep, or it runs the type switch on what it received. *)
Definition loop_run (g : nat) (s : state) : result :=
  match loops s !! g with
  | Some AtFor =>
      match pg_ctx s with
      | Some k =>
          match ready (NotificationsUpdate s) (cancelled k s) with
          | [] => Running (set_loops (<[g := Asleep k]> (loops s)) s)
          | _ :: _ => Stuck
          end
      | None => Crashed NilDeref
      end
  | Some (Handling v) => Running (handle v (set_loops (<[g := AtFor]> (loops s)) s))
  | _ => Stuck
  end.

Inductive action : Type :=
| Resume
| Close
| Produce (v : notification)
| LoopRun (g : nat)
| LoopSelect (g : nat) (b : branch).

Definition step (a : action) (s : state) : result :=
  match a with
  | Resume => Running (OnResume s)
  | Close => OnClose s
  | Produce v => produce v s
  | LoopRun g => loop_run g s
  | LoopSelect g b => loop_select g b s
  end.

Fixpoint run (t : list action) (s : state) : result :=
  match t with
  | [] => Running s
  | a :: t' =>
      match step a s with
      | Running s' => run t' s'
      | r => r
      end
  end.

(** The detach of the page: [OnClose], and the goroutines that find the
    context cancelled when they enter the [select] and take the cancellation
    case. *)
Definition is_detach_step (a : action) : bool :=
  match a with
  | Close | LoopSelect _ BrDone => true
  | _ => false
  end.

Lemma OnClose_frame s s' :
  OnClose s = Running s' →
  NotificationsUpdate s' = NotificationsUpdate s ∧ listeners s' = listeners s
  ∧ pg_ctx s' = pg_ctx s
  ∧ ∃ k, pg_ctx s = Some k ∧ ctxs s' = <[k := true]> (ctxs s)
         ∧ loops s' = List.filter (λ p, negb (asleep_on k p)) (loops s).
Proof.
  unfold OnClose. destruct (pg_ctx s) as [k|] eqn:Hk; [|done].
  intros ?; simplify_eq; simpl. repeat split; eauto.
Qed.

Lemma loop_done_frame g s s' :
  loop_select g BrDone s = Running s' →
  NotificationsUpdate s' = NotificationsUpdate s ∧ listeners s' = listeners s
  ∧ ctxs s' = ctxs s ∧ loops s' = delete g (loops s).
Proof.
  unfold loop_select. destruct (loops s !! g) as [[|k|v]|]; try done.
  destruct (pg_ctx s) as [k|]; [|done].
  destruct (cancelled k s); try done.
  by intros ?; simplify_eq.
Qed.

Lemma detach_step_frame a s s' :
  is_detach_step a = true → step a s = Running s' →
  NotificationsUpdate s' = NotificationsUpdate s ∧ listeners s' = listeners s.
Proof.
  destruct a as [| |v|g|g [|]]; try done; intros _ Hs; simpl in Hs.
  - by destruct (OnClose_frame _ _ Hs) as (? & ? & _).
  - by destruct (loop_done_frame _ _ _ Hs) as (? & ? & _).
Qed.

(** C10: [OnClose] changes nothing but the cancelled flag of the page's
    context, and the goroutines asleep on it end; a goroutine that takes the
    cancellation case only ends; so a detach, that is [OnClose] and
    goroutines taking the cancellation case in any number and order, leaves
    the shared channel (its buffer, its blocked senders, its open or closed
    state) and the engine's registrations exactly as they were. *)
Theorem detach_leaves_channel_and_registrations t s s' :
  forallb is_detach_step t = true → run t s = Running s' →
  NotificationsUpdate s' = NotificationsUpdate s
  ∧ listeners s' = listeners s
  ∧ (∀ s1, OnClose s = Running s1 →
       ∃ k, pg_ctx s = Some k ∧ ctxs s1 = <[k := true]> (ctxs s)
            ∧ loops s1 = List.filter (λ p, negb (asleep_on k p)) (loops s))
  ∧ (∀ g s1, loop_select g BrDone s = Running s1 →
       loops s1 = delete g (loops s) ∧ ctxs s1 = ctxs s
       ∧ NotificationsUpdate s1 = NotificationsUpdate s
       ∧ listeners s1 = listeners s).
Proof.
  intros Hall Hrun.
  assert (NotificationsUpdate s' = NotificationsUpdate s ∧ listeners s' = listeners s)
    as [Hc Hl].
  { revert s Hall Hrun. induction t as [|a t IH]; intros s Hall Hrun;
      simpl in Hall, Hrun.
    - by simplify_eq.
    - apply andb_true_iff in Hall as [Ha Hall].
      destruct (step a s) as [s1| |] eqn:Hs; try done.
      destruct (detach_step_frame _ _ _ Ha Hs) as [Hc1 Hl1].
      destruct (IH _ Hall Hrun) as [Hc2 Hl2]. split; congruence. }
  split; [done|]. split; [done|]. split.
  - intros s1 Hs1. by destruct (OnClose_frame _ _ Hs1) as (_ & _ & _ & ?).
  - intros g s1 Hs1. destruct (loop_done_frame _ _ _ Hs1) as (? & ? & ? & ?).
    by repeat split.
Qed.

Lemma tx_select_when_cancelled g s k :
  loops s !! g = Some AtFor → pg_ctx s = Some k → cancelled k s = true →
  (∃ s', step (LoopSelect g BrDone) s = Running s')
  ∧ ((∃ s', step (LoopSelect g BrRecv) s = Running s')
     ↔ is_Some (recv (NotificationsUpdate s)))
  ∧ step (LoopRun g) s = Stuck.
Proof.
  intros Hg Hk Hd. cbn [step]. unfold loop_select, loop_run. rewrite Hg, Hk, Hd.
  split; [eauto|]. split.
  - destruct (recv (NotificationsUpdate s)) as [[v ch']|]; split; eauto.
    + by intros [? ?].
    + by intros [? ?].
  - unfold ready. by destruct (recv (NotificationsUpdate s)).
Qed.

End TxPage.

(** ** The [select] of the loops under cancellation *)

(** C6, as the code has it: when a loop enters its [select] with the context
    cancelled, the cancellation case can be taken, and the receive case can
    be taken as well exactly when the channel has something to receive; so
    with a notification available either case may run, and cancellation is
    the only case when none is; in neither situation does the loop go to
    sleep.  This holds for the loops of the three listener pages and for the
    loop of the transactions page. *)
Theorem select_under_cancellation :
  (∀ (N L : Type) (capacity : nat) (handler : option N → L → L) (w : bool)
     (g : nat) (s : Bridge.state) (c k : nat) (ch : Chan.chan N),
     Bridge.loops s !! g = Some Bridge.AtFor →
     Bridge.pg_listener s = Some c → Bridge.pg_ctx s = Some k →
     Bridge.chans s !! c = Some ch →
     Bridge.cancelled k s = true →
     (∃ s', Bridge.step capacity handler w (Bridge.LoopSelect g BrDone) s
            = Bridge.Running s')
     ∧ ((∃ s', Bridge.step capacity handler w (Bridge.LoopSelect g BrRecv) s
               = Bridge.Running s')
        ↔ is_Some (Chan.recv ch))
     ∧ Bridge.step capacity handler w (Bridge.LoopRun g) s = Bridge.Stuck)
  ∧ (∀ (g : nat) (s : TxPage.state) (k : nat),
       TxPage.loops s !! g = Some TxPage.AtFor →
       TxPage.pg_ctx s = Some k →
       TxPage.cancelled k s = true →
       (∃ s', TxPage.step (TxPage.LoopSelect g BrDone) s = TxPage.Running s')
       ∧ ((∃ s', TxPage.step (TxPage.LoopSelect g BrRecv) s = TxPage.Running s')
          ↔ is_Some (Chan.recv (TxPage.NotificationsUpdate s)))
       ∧ TxPage.step (TxPage.LoopRun g) s = TxPage.Stuck).
Proof.
  split.
  - intros N L capacity handler w g s c k ch Hg Hl Hk Hc Hd.
    by apply (Bridge.select_when_cancelled capacity handler w g s c k ch).
  - intros g s k Hg Hk Hd. by apply (TxPage.tx_select_when_cancelled g s k).
Qed.

(** ** Executions of the pages *)

Module Scenarios.
Import Chan Bridge.

Definition synced : ProposalsPage.ProposalNotification :=
  ProposalsPage.MkNotification "" ProposalsPage.Synced.

Definition vote_started : ProposalsPage.ProposalNotification :=
  ProposalsPage.MkNotification "p1" ProposalsPage.VoteStarted.

Definition mixer_ended : AccountMixerPage.MixerNotification :=
  AccountMixerPage.MkNotification AccountMixerPage.MixerEnded.





(** A notification is enqueued and the page is left before the goroutine
    enters its [select]. *)
Definition leave_with_one_ready : list action :=
  [NavigateTo false; Callback 0 mixer_ended; NavigateFrom].

(** After [leave_with_one_ready] the goroutine enters the [select] with the
    notification available and the context cancelled; the receive case can
    be taken, and the body then runs on the notification. *)
Definition dispatched_after_cancel (capacity : nat) : Prop :=
  ∃ s s1 s2 ch,
    AccountMixerPage.run capacity AccountMixerPage.MixerStarted engine_locks
      leave_with_one_ready = Running s
    ∧ loops s = [AtFor] ∧ ctxs s !! 0 = Some true
    ∧ chans s !! 0 = Some ch ∧ pending ch = [mixer_ended]
    ∧ step capacity (AccountMixerPage.handler AccountMixerPage.MixerStarted)
        engine_locks (LoopSelect 0 BrRecv) s = Running s1
    ∧ loops s1 = [Handling 0 (Some mixer_ended)]
    ∧ teardown_steps (log s1) = []
    ∧ step capacity (AccountMixerPage.handler AccountMixerPage.MixerStarted)
        engine_locks (LoopRun 0) s1 = Running s2
    ∧ log s2 = log s ++ [EvDispatch 0 (Some mixer_ended)]
    ∧ AccountMixerPage.mixerCompleted (pg_local s2) = true
    ∧ loops s2 = [AtFor].

Definition tx_start : TxPage.state :=
  TxPage.MkState (make 4) ["Transactions"] [] None 1 0 0 [].

Definition tx_leave_with_one_ready : list TxPage.action :=
  [TxPage.Resume; TxPage.Produce (TxPage.NewTransaction 1); TxPage.Close].

(** C6 does not hold as stated: entering the [select] with a notification
    available and the context cancelled, the loop can take the receive case
    and run its body, on the mixer page (with a channel of capacity 4 as
    with one of capacity 0) and on the transactions page. *)
Lemma receive_case_taken_after_cancel :
  dispatched_after_cancel 4
  ∧ dispatched_after_cancel 0
  ∧ ∃ s s1 s2,
      TxPage.run tx_leave_with_one_ready tx_start = TxPage.Running s
      ∧ TxPage.loops s = [TxPage.AtFor]
      ∧ TxPage.ctxs s !! 0 = Some true
      ∧ pending (TxPage.NotificationsUpdate s) = [TxPage.NewTransaction 1]
      ∧ TxPage.step (TxPage.LoopSelect 0 BrRecv) s = TxPage.Running s1
      ∧ TxPage.loops s1 = [TxPage.Handling (Some (TxPage.NewTransaction 1))]
      ∧ TxPage.step (TxPage.LoopRun 0) s1 = TxPage.Running s2
      ∧ TxPage.loads s2 = 1 ∧ TxPage.loops s2 = [TxPage.AtFor].
Proof.
  split; [|split].
  - unfold dispatched_after_cancel, AccountMixerPage.run.
    eexists _, _, _, _. split; [vm_compute; reflexivity|].
    do 4 (split; [reflexivity|]). split; [vm_compute; reflexivity|].
    do 2 (split; [reflexivity|]). split; [vm_compute; reflexivity|].
    by repeat split.
  - unfold dispatched_after_cancel, AccountMixerPage.run.
    eexists _, _, _, _. split; [vm_compute; reflexivity|].
    do 4 (split; [reflexivity|]). split; [vm_compute; reflexivity|].
    do 2 (split; [reflexivity|]). split; [vm_compute; reflexivity|].
    by repeat split.
  - eexists _, _, _. split; [vm_compute; reflexivity|].
    do 3 (split; [reflexivity|]). split; [vm_compute; reflexivity|].
    split; [reflexivity|]. split; [vm_compute; reflexivity|].
    by repeat split.
Qed.

(** The goroutine is in the body of the receive case while five more
    callbacks arrive, the fifth blocked in its send on the full channel
    (capacity 4); the page is left; the goroutine ends the body, enters the
    [select] and takes the cancellation case. *)
Definition leave_with_callback_parked : list action :=
  [NavigateTo false; LoopRun 0; Callback 0 synced;
   Callback 0 vote_started; Callback 0 vote_started; Callback 0 vote_started;
   Callback 0 vote_started; Callback 0 synced;
   NavigateFrom; LoopRun 0; LoopSelect 0 BrDone].

(** What the engine's lock decides from there: without it the close wakes
    the blocked sender, which panics; with it the unregistration does not
    return. *)
Lemma callback_parked_at_teardown :
  ProposalsPage.run 4 ProposalsPage.NewProposal false
    (leave_with_callback_parked ++ [LoopRun 0; LoopRun 0])
  = Crashed SendOnClosed
  ∧ ProposalsPage.run 4 ProposalsPage.NewProposal engine_locks
      (leave_with_callback_parked ++ [LoopRun 0])
    = Stuck.
Proof. split; vm_compute; reflexivity. Qed.


(** C3 does not hold as stated: with a registration active and the
    cancellation case taken while a callback is blocked in its send, the
    unregistration cannot proceed, and in no later execution is the listener
    unregistered or the channel closed (the history keeps the case taken as
    its only step); without the engine's lock the goroutine unregisters and
    the close panics before the listener field is reset. *)
Lemma teardown_stalls_on_blocked_callback :
  (∃ s, ProposalsPage.run 4 ProposalsPage.NewProposal engine_locks
          leave_with_callback_parked = Running s
        ∧ registry s = [0] ∧ loops s = [AtRemove]
        ∧ teardown_steps (log s) = [TDone]
        ∧ step 4 (ProposalsPage.handler ProposalsPage.NewProposal) engine_locks
            (LoopRun 0) s = Stuck
        ∧ ∀ t s',
            run 4 (ProposalsPage.handler ProposalsPage.NewProposal) engine_locks t s
            = Running s' →
            teardown_steps (log s') = [TDone] ∧ registry s' = [0])
  ∧ ProposalsPage.run 4 ProposalsPage.NewProposal false
      (leave_with_callback_parked ++ [LoopRun 0; LoopRun 0])
    = Crashed SendOnClosed.
Proof.
  split; [|vm_compute; reflexivity].
  unfold ProposalsPage.run.
  eexists. split; [vm_compute; reflexivity|].
  repeat split.
  - edestruct (blocked_teardown_run 4
                 (ProposalsPage.handler ProposalsPage.NewProposal) engine_locks 0 t)
      as [_ Hlog]; [|exact H|exact Hlog].
    repeat split. eexists. split; [reflexivity | done].
  - edestruct (blocked_teardown_run 4
                 (ProposalsPage.handler ProposalsPage.NewProposal) engine_locks 0 t)
      as [(_ & _ & _ & Hr & _) _]; [|exact H|exact Hr].
    repeat split. eexists. split; [reflexivity | done].
Qed.

(** A notification already received when the page is left is still run on:
    the goroutine ends the body of the receive case and only then enters
    the [select] again, where the cancellation case is the only one ready. *)
Lemma cancel_during_body :
  ∃ s s1,
    ProposalsPage.run 4 ProposalsPage.NewProposal engine_locks
      [NavigateTo false; LoopRun 0; Callback 0 synced; NavigateFrom] = Running s
    ∧ loops s = [Handling 0 (Some synced)]
    ∧ step 4 (ProposalsPage.handler ProposalsPage.NewProposal) engine_locks
        (LoopRun 0) s = Running s1
    ∧ dispatched 0 (log s1) = [Some synced]
    ∧ ProposalsPage.syncCompleted (pg_local s1) = true
    ∧ step 4 (ProposalsPage.handler ProposalsPage.NewProposal) engine_locks
        (LoopSelect 0 BrRecv) s1 = Stuck
    ∧ ProposalsPage.run 4 ProposalsPage.NewProposal engine_locks
        [NavigateTo false; LoopRun 0; Callback 0 synced; NavigateFrom;
         LoopRun 0; LoopSelect 0 BrDone; LoopRun 0; LoopRun 0; LoopRun 0]
      = Running (set_loops [] (set_listener None (set_registry []
          (add_log [EvDone; EvRemove; EvClose 0; EvClear]
             (set_chans [MkChan 4 [] [] true] s1))))).
Proof.
  eexists _, _. split; [vm_compute; reflexivity|].
  split; [reflexivity|]. split; [vm_compute; reflexivity|].
  repeat split.
Qed.

(** [with_run r]: evaluates the execution [r] to its final state [s], keeps
    [Hrun : r = Running s] and gives [s] as the witness. *)
Ltac with_run r :=
  let v := eval vm_compute in r in
  lazymatch v with
  | Running ?s =>
      assert (r = Running s) as Hrun by (vm_compute; reflexivity); exists s
  | TxPage.Running ?s =>
      assert (r = TxPage.Running s) as Hrun by (vm_compute; reflexivity); exists s
  end.



Lemma teardown_in_order_once_witness :
  ∃ s, ProposalsPage.run 4 ProposalsPage.NewProposal engine_locks
         [NavigateTo false; Callback 0 synced; Callback 0 vote_started;
          NavigateFrom; LoopSelect 0 BrDone] = Running s
       ∧ (∃ n, teardown_steps (log s) = cycles n ++ [TDone])
       ∧ ∃ c ch s',
           chans s !! c = Some ch ∧ buf ch = [synced; vote_started]
           ∧ run 4 (ProposalsPage.handler ProposalsPage.NewProposal) engine_locks
               [LoopRun 0; LoopRun 0; LoopRun 0] s = Running s'
           ∧ log s' = log s ++ [EvRemove; EvClose c; EvClear]
           ∧ loops s' = [].
Proof.
  with_run (ProposalsPage.run 4 ProposalsPage.NewProposal engine_locks
              [NavigateTo false; Callback 0 synced; Callback 0 vote_started;
               NavigateFrom; LoopSelect 0 BrDone]).
  split; [exact Hrun|].
  destruct (teardown_in_order_once 4
              (ProposalsPage.handler ProposalsPage.NewProposal) engine_locks
              ProposalsPage.new_page _ (ex_intro _ _ Hrun)) as [Hshape Hdown].
  split; [exact Hshape|].
  destruct (Hdown eq_refl eq_refl) as (c & ch & s' & Hl & Hc & Hr' & Hlog & Hg & _).
  exists c, ch, s'.
  injection Hl as <-. injection Hc as <-.
  split; [reflexivity|]. split; [reflexivity|].
  split; [exact Hr'|]. split; [exact Hlog | exact Hg].
Defined.

Lemma attach_error_degrades_witness :
  step 4 (ProposalsPage.handler ProposalsPage.NewProposal) engine_locks
    (NavigateTo true) ProposalsPage.init
  = Running (OnNavigatedTo 4 true ProposalsPage.init)
  ∧ log (OnNavigatedTo 4 true ProposalsPage.init)
    = [EvAdd 0 false; EvLogError]
  ∧ loops (OnNavigatedTo 4 true ProposalsPage.init) = [].
Proof.
  destruct (attach_error_degrades 4
              (ProposalsPage.handler ProposalsPage.NewProposal) engine_locks
              ProposalsPage.new_page ProposalsPage.init
              (reachable_init _ _ _ _) eq_refl) as (Hs & Hlog & Hg & _).
  split; [exact Hs|]. split; [exact Hlog | exact Hg].
Defined.

Lemma failed_registration_is_final_witness :
  ∃ s', run 4 (ProposalsPage.handler ProposalsPage.NewProposal) engine_locks
          [NavigateFrom; NavigateTo false; NavigateTo true; NavigateFrom]
          (OnNavigatedTo 4 true ProposalsPage.init) = Running s'
        ∧ pg_listener s' = Some 0 ∧ registry s' = [] ∧ loops s' = []
        ∧ log s' = [EvAdd 0 false; EvLogError].
Proof.
  with_run (run 4 (ProposalsPage.handler ProposalsPage.NewProposal) engine_locks
              [NavigateFrom; NavigateTo false; NavigateTo true; NavigateFrom]
              (OnNavigatedTo 4 true ProposalsPage.init)).
  split; [exact Hrun|].
  destruct (failed_registration_is_final 4
              (ProposalsPage.handler ProposalsPage.NewProposal) engine_locks
              ProposalsPage.new_page ProposalsPage.init _ _
              (reachable_init _ _ _ _) eq_refl Hrun) as (Hl & Hr & Hg & Hlog & _).
  split; [exact Hl|]. split; [exact Hr|]. split; [exact Hg | exact Hlog].
Defined.


Lemma select_under_cancellation_witness :
  (∃ s, AccountMixerPage.run 4 AccountMixerPage.MixerStarted engine_locks
          leave_with_one_ready = Running s
        ∧ (∃ s', step 4 (AccountMixerPage.handler AccountMixerPage.MixerStarted)
                   engine_locks (LoopSelect 0 BrDone) s = Running s')
        ∧ (∃ s', step 4 (AccountMixerPage.handler AccountMixerPage.MixerStarted)
                   engine_locks (LoopSelect 0 BrRecv) s = Running s')
        ∧ step 4 (AccountMixerPage.handler AccountMixerPage.MixerStarted)
            engine_locks (LoopRun 0) s = Stuck)
  ∧ (∃ s, TxPage.run tx_leave_with_one_ready tx_start = TxPage.Running s
          ∧ (∃ s', TxPage.step (TxPage.LoopSelect 0 BrDone) s = TxPage.Running s')
          ∧ (∃ s', TxPage.step (TxPage.LoopSelect 0 BrRecv) s = TxPage.Running s')
          ∧ TxPage.step (TxPage.LoopRun 0) s = TxPage.Stuck).
Proof.
  split.
  - with_run (AccountMixerPage.run 4 AccountMixerPage.MixerStarted engine_locks
                leave_with_one_ready).
    split; [exact Hrun|].
    match type of Hrun with
    | _ = Running ?s =>
        destruct (proj1 select_under_cancellation _ _ 4
                    (AccountMixerPage.handler AccountMixerPage.MixerStarted)
                    engine_locks 0 s 0 0 _ eq_refl eq_refl eq_refl eq_refl eq_refl)
          as (Hdone & Hrecv & Hsleep)
    end.
    split; [exact Hdone|]. split; [|exact Hsleep].
    apply Hrecv. eexists. reflexivity.
  - with_run (TxPage.run tx_leave_with_one_ready tx_start).
    split; [exact Hrun|].
    match type of Hrun with
    | _ = TxPage.Running ?s =>
        destruct (proj2 select_under_cancellation 0 s 0 eq_refl eq_refl eq_refl)
          as (Hdone & Hrecv & Hsleep)
    end.
    split; [exact Hdone|]. split; [|exact Hsleep].
    apply Hrecv. eexists. reflexivity.
Defined.

Lemma detach_leaves_channel_and_registrations_witness :
  ∃ s, TxPage.run [TxPage.Resume; TxPage.Produce (TxPage.NewTransaction 1)] tx_start
       = TxPage.Running s
       ∧ ∃ s', TxPage.run [TxPage.Close; TxPage.LoopSelect 0 BrDone] s
               = TxPage.Running s'
               ∧ TxPage.NotificationsUpdate s' = TxPage.NotificationsUpdate s
               ∧ TxPage.listeners s' = TxPage.listeners s.
Proof.
  with_run (TxPage.run [TxPage.Resume; TxPage.Produce (TxPage.NewTransaction 1)]
              tx_start).
  split; [exact Hrun|]. clear Hrun.
  match goal with
  | |- ∃ s', TxPage.run ?t ?s = _ ∧ _ => with_run (TxPage.run t s)
  end.
  split; [exact Hrun|].
  destruct (TxPage.detach_leaves_channel_and_registrations
              [TxPage.Close; TxPage.LoopSelect 0 BrDone] _ _ eq_refl Hrun)
    as (Hc & Hl & _).
  split; [exact Hc | exact Hl].
Defined.

End Scenarios.

(** ** The callbacks of the tx and block listener, one after the other *)

Module ListenerCalls.
Import Chan Listeners.

Section ListenerCalls.
Context {Transaction : Type}.
Variable Unmarshal : string → Transaction + string.

(** A call of the engine on the listener. *)
Inductive call : Type :=
| CallTransaction (transaction : string)
| CallBlockAttached (walletID blockHeight : Z)
| CallTransactionConfirmed (walletID : Z) (hash : string) (blockHeight : Z).

Definition invoke (c : call) (l : TxAndBlockNotificationListener)
    (lg : list string) : call_result :=
  match c with
  | CallTransaction transaction => OnTransaction Unmarshal transaction l lg
  | CallBlockAttached walletID blockHeight => OnBlockAttached walletID blockHeight l lg
  | CallTransactionConfirmed walletID hash blockHeight =>
      OnTransactionConfirmed walletID hash blockHeight l lg
  end.

(** The calls in turn, each on its own engine thread: a call left blocked
    in its send does not keep the next one from being made. *)
Fixpoint invoke_all (cs : list call) (l : TxAndBlockNotificationListener)
    (lg : list string) : call_result :=
  match cs with
  | [] => Returned l lg
  | c :: cs' =>
      match invoke c l lg with
      | Returned l' lg' | Blocked l' lg' => invoke_all cs' l' lg'
      | Panicked p => Panicked p
      end
  end.

(** What a call sends, and what it logs. *)
Definition notification_of (c : call) : option (@TxNotification Transaction) :=
  match c with
  | CallTransaction transaction =>
      match Unmarshal transaction with
      | inl tx => Some (MkTxNotification NewTransaction (Some tx) 0 0 "")
      | inr _ => None
      end
  | CallBlockAttached walletID blockHeight =>
      Some (MkTxNotification BlockAttached None walletID blockHeight "")
  | CallTransactionConfirmed walletID hash blockHeight =>
      Some (MkTxNotification TxConfirmed None walletID blockHeight hash)
  end.

Definition log_of (c : call) : list string :=
  match c with
  | CallTransaction transaction =>
      match Unmarshal transaction with
      | inl _ => []
      | inr err => ["Error unmarshalling transaction: " +:+ err]
      end
  | _ => []
  end.

Lemma invoke_open c l lg :
  wf (TxAndBlockNotifChan l) → closed (TxAndBlockNotifChan l) = false →
  ∃ l', (invoke c l lg = Returned l' (lg ++ log_of c)
         ∨ invoke c l lg = Blocked l' (lg ++ log_of c))
        ∧ pending (TxAndBlockNotifChan l')
          = pending (TxAndBlockNotifChan l) ++ option_list (notification_of c)
        ∧ wf (TxAndBlockNotifChan l') ∧ closed (TxAndBlockNotifChan l') = false.
Proof.
  intros Hwf Hc.
  assert (∀ n, ∃ l', (UpdateNotification n l lg = Returned l' lg
                      ∨ UpdateNotification n l lg = Blocked l' lg)
                     ∧ pending (TxAndBlockNotifChan l')
                       = pending (TxAndBlockNotifChan l) ++ [n]
                     ∧ wf (TxAndBlockNotifChan l')
                     ∧ closed (TxAndBlockNotifChan l') = false) as Hup.
  { intros n. unfold UpdateNotification.
    destruct (send_open_pending n _ Hwf Hc) as (c' & [Hs|Hs] & Hp & Hcl & _ & Hwf');
      rewrite Hs; exists (MkListener c'); simpl; auto. }
  destruct c as [transaction|walletID blockHeight|walletID hash blockHeight];
    simpl; unfold OnTransaction, OnBlockAttached, OnTransactionConfirmed.
  - destruct (Unmarshal transaction) as [tx|err]; simpl.
    + rewrite app_nil_r. apply Hup.
    + exists l. rewrite app_nil_r. auto.
  - rewrite app_nil_r. apply Hup.
  - rewrite app_nil_r. apply Hup.
Qed.

(** X6: whatever calls the engine makes on a listener whose channel is open,
    and in whatever number: none panics, each decoded transaction, attached
    block and confirmation adds exactly one notification with the call's
    arguments, a payload that does not decode adds a line to the log and
    nothing to the channel, and the channel holds the notifications in the
    order of the calls. *)
Theorem callbacks_enqueue_in_call_order (cs : list call)
    (l : TxAndBlockNotificationListener) (lg : list string) :
  wf (TxAndBlockNotifChan l) → closed (TxAndBlockNotifChan l) = false →
  ∃ l', invoke_all cs l lg = Returned l' (lg ++ (cs ≫= log_of))
        ∧ pending (TxAndBlockNotifChan l')
          = pending (TxAndBlockNotifChan l) ++ omap notification_of cs
        ∧ closed (TxAndBlockNotifChan l') = false.
Proof.
  revert l lg. induction cs as [|c cs IH]; intros l lg Hwf Hc.
  - exists l. simpl. by rewrite !app_nil_r.
  - destruct (invoke_open c l lg Hwf Hc) as (l1 & Hcall & Hp1 & Hwf1 & Hc1).
    destruct (IH l1 (lg ++ log_of c) Hwf1 Hc1) as (l' & Hrun & Hp' & Hc').
    exists l'. split; [|split; [|done]].
    + rewrite bind_cons, app_assoc. simpl.
      destruct Hcall as [-> | ->]; exact Hrun.
    + rewrite Hp', Hp1, <- app_assoc. f_equal. simpl.
      by destruct (notification_of c).
Qed.

(** X7: on a closed channel every call that reaches the send panics, and a
    transaction payload that does not decode still only logs and returns. *)
Theorem callbacks_on_closed_channel (c : call)
    (l : TxAndBlockNotificationListener) (lg : list string) :
  closed (TxAndBlockNotifChan l) = true →
  match notification_of c with
  | Some _ => invoke c l lg = Panicked SendOnClosed
  | None => invoke c l lg = Returned l (lg ++ log_of c)
  end.
Proof.
  intros Hc.
  destruct c as [transaction|walletID blockHeight|walletID hash blockHeight];
    simpl; unfold OnTransaction, OnBlockAttached, OnTransactionConfirmed,
             UpdateNotification, send.
  - destruct (Unmarshal transaction) as [tx|err]; [|done]. by rewrite Hc.
  - by rewrite Hc.
  - by rewrite Hc.
Qed.

End ListenerCalls.

Lemma callbacks_enqueue_in_call_order_witness :
  ∃ l', invoke_all demo_unmarshal
          [CallBlockAttached 1 100; CallTransaction "{"; CallTransaction "tx7";
           CallTransactionConfirmed 1 "abc" 101]
          NewTxAndBlockNotificationListener []
        = Returned l' ["Error unmarshalling transaction: invalid character"]
        ∧ pending (TxAndBlockNotifChan l')
          = [MkTxNotification BlockAttached None 1 100 "";
             MkTxNotification NewTransaction (Some 7) 0 0 "";
             MkTxNotification TxConfirmed None 1 101 "abc"].
Proof.
  destruct (callbacks_enqueue_in_call_order demo_unmarshal
              [CallBlockAttached 1 100; CallTransaction "{"; CallTransaction "tx7";
               CallTransactionConfirmed 1 "abc" 101]
              NewTxAndBlockNotificationListener [] (wf_make 4) eq_refl)
    as (l' & Hrun & Hp & _).
  exists l'. split; [exact Hrun | exact Hp].
Defined.

Lemma callbacks_on_closed_channel_witness :
  invoke demo_unmarshal (CallBlockAttached 1 100)
    (MkListener (MkChan 4 [] [] true)) []
  = Panicked SendOnClosed.
Proof.
  exact (callbacks_on_closed_channel demo_unmarshal (CallBlockAttached 1 100)
           (MkListener (MkChan 4 [] [] true)) [] eq_refl).
Defined.

End ListenerCalls.

(** ** The order list of the order history page

    [OrderHistoryPage.fetchOrders] and [onScrollChangeListener], run one
    call at a time (the page guards them with a plain flag, [pg.loading]).
    [api.Status], its [String] method and [components.LoadOrders] are
    outside these sources: the statuses are the constants the page names,
    [String] and [LoadOrders] are parameters, and a [LoadOrders] that
    yields a nil slice is [None]. *)

Module OrderHistoryList.

Inductive Status : Type :=
| OrderStatusUnknown
| OrderStatusWaitingForDeposit
| OrderStatusDepositReceived
| OrderStatusNew
| OrderStatusRefunded
| OrderStatusExpired
| OrderStatusCompleted.

#[global] Instance Status_eq_dec : EqDecision Status.
Proof. solve_decision. Defined.

(** Go's conversion of an [int] to [int32]. *)
Definition int32 (z : Z) : Z := ((z + 2 ^ 31) `mod` 2 ^ 32 - 2 ^ 31)%Z.

(** [layout.Position], the fields the page reads. *)
Record Position : Type := MkPosition {
  OffsetLast : Z;
  BeforeEnd : bool;
  Length : Z
}.

Section OrderHistoryList.
Context {Order : Type}.

Variable String : Status → string.

(** One call of [components.LoadOrders]: offset, limit, newest first, status
    filter. *)
Definition load_call : Type := Z * Z * bool * Status.

Record page : Type := MkPage {
  Selected : string;          (* pg.statusDropdown.Selected() *)
  position : Position;        (* pg.listContainer.List.Position *)
  orderItems : list Order;
  loading : bool;
  initialLoadingDone : bool;
  loadedAll : bool;
  reloads : nat;              (* calls of pg.ParentWindow().Reload() *)
  loads : list load_call      (* the calls of LoadOrders made *)
}.

Definition set_position (x : Position) (pg : page) : page :=
  MkPage (Selected pg) x (orderItems pg) (loading pg) (initialLoadingDone pg)
    (loadedAll pg) (reloads pg) (loads pg).
Definition set_orderItems (x : list Order) (pg : page) : page :=
  MkPage (Selected pg) (position pg) x (loading pg) (initialLoadingDone pg)
    (loadedAll pg) (reloads pg) (loads pg).
Definition set_loading (x : bool) (pg : page) : page :=
  MkPage (Selected pg) (position pg) (orderItems pg) x (initialLoadingDone pg)
    (loadedAll pg) (reloads pg) (loads pg).
Definition set_initialLoadingDone (x : bool) (pg : page) : page :=
  MkPage (Selected pg) (position pg) (orderItems pg) (loading pg) x
    (loadedAll pg) (reloads pg) (loads pg).
Definition set_loadedAll (x : bool) (pg : page) : page :=
  MkPage (Selected pg) (position pg) (orderItems pg) (loading pg)
    (initialLoadingDone pg) x (reloads pg) (loads pg).
Definition Reload (pg : page) : page :=
  MkPage (Selected pg) (position pg) (orderItems pg) (loading pg)
    (initialLoadingDone pg) (loadedAll pg) (S (reloads pg)) (loads pg).
Definition add_load (x : load_call) (pg : page) : page :=
  MkPage (Selected pg) (position pg) (orderItems pg) (loading pg)
    (initialLoadingDone pg) (loadedAll pg) (reloads pg) (loads pg ++ [x]).

(** The [switch] on the text selected in the status dropdown: the cases are
    compared in turn. *)
Definition statusFilter (selectedStatus : string) : Status :=
  if decide (selectedStatus = String OrderStatusWaitingForDeposit)
  then OrderStatusWaitingForDeposit
  else if decide (selectedStatus = String OrderStatusDepositReceived)
  then OrderStatusDepositReceived
  else if decide (selectedStatus = String OrderStatusNew)
  then OrderStatusNew
  else if decide (selectedStatus = String OrderStatusRefunded)
  then OrderStatusRefunded
  else if decide (selectedStatus = String OrderStatusExpired)
  then OrderStatusExpired
  else if decide (selectedStatus = String OrderStatusCompleted)
  then OrderStatusCompleted
  else OrderStatusUnknown.

(** The offset of the next page of orders. *)
Definition next_offset (loadMore : bool) (pg : page) : Z :=
  if loadMore then Z.of_nat (length (orderItems pg)) else 0%Z.

Definition fetchOrders (LoadOrders : Z → Z → bool → Status → option (list Order))
    (loadMore : bool) (pg : page) : page :=
  let statusFilter := statusFilter (Selected pg) in
  if loading pg then pg
  else
    (* defer func() { pg.loading = false }() *)
    let deferred := set_loading false in
    let pg := set_loading true (set_loadedAll false pg) in
    let limit := 10%Z in
    let offset := next_offset loadMore pg in
    let tempOrders := LoadOrders (int32 offset) (int32 limit) true statusFilter in
    let pg := add_load (int32 offset, int32 limit, true, statusFilter) pg in
    match tempOrders with
    | None => deferred (set_orderItems [] pg)
    | Some tempOrders =>
        let pg := set_initialLoadingDone true pg in
        if decide (length tempOrders = 0)
        then
          let pg := set_loading false (set_loadedAll true pg) in
          deferred (if loadMore then pg else set_orderItems [] pg)
        else
          let pg := if decide (Z.of_nat (length tempOrders) < limit)%Z
                    then set_loadedAll true pg else pg in
          let pg := if loadMore
                    then set_orderItems (orderItems pg ++ tempOrders) pg
                    else set_orderItems tempOrders pg in
          deferred (Reload pg)
    end.

Definition onScrollChangeListener
    (LoadOrders : Z → Z → bool → Status → option (list Order)) (pg : page) : page :=
  if bool_decide (length (orderItems pg) < 5) || negb (initialLoadingDone pg)
  then pg
  else
    if (bool_decide (-50 ≤ OffsetLast (position pg))%Z && BeforeEnd (position pg))
       || (bool_decide (OffsetLast (position pg) = 0%Z)
           && bool_decide (0 < Length (position pg))%Z)
    then if negb (loadedAll pg) then fetchOrders LoadOrders true pg else pg
    else pg.

(** The statuses the [switch] of [fetchOrders] names. *)
Definition named_statuses : list Status :=
  [OrderStatusWaitingForDeposit; OrderStatusDepositReceived; OrderStatusNew;
   OrderStatusRefunded; OrderStatusExpired; OrderStatusCompleted].

(** X8: with texts that tell the six named statuses apart, the filter of a
    status' own text is that status; a text that is none of theirs gives
    [OrderStatusUnknown]. *)
Theorem statusFilter_round_trip :
  (∀ a b, a ∈ named_statuses → b ∈ named_statuses → String a = String b → a = b) →
  (∀ st, st ∈ named_statuses → statusFilter (String st) = st)
  ∧ (∀ txt, (∀ st, st ∈ named_statuses → txt ≠ String st) →
       statusFilter txt = OrderStatusUnknown).
Proof.
  intros Hinj.
  assert (∀ a, a ≠ OrderStatusUnknown → a ∈ named_statuses) as Hin.
  { intros a Ha. destruct a; [done|..]; unfold named_statuses;
      repeat first [apply list_elem_of_here | apply list_elem_of_further]. }
  split.
  - intros st Hst. destruct st.
    { exfalso. unfold named_statuses in Hst.
      repeat (apply elem_of_cons in Hst as [Hst|Hst]; [done|]).
      by apply elem_of_nil in Hst. }
    all: unfold statusFilter.
    all: repeat (destruct (decide _) as [?|?]); try done.
    all: repeat match goal with
                | Heq : String ?a = String ?b |- _ =>
                    assert (a = b)
                      by (apply Hinj; [by apply Hin|by apply Hin|done]);
                    clear Heq
                end; done.
  - intros txt Hno. unfold statusFilter.
    repeat (destruct (decide _) as [?|?]); try done.
    all: exfalso.
    all: match goal with
         | Heq : _ = String ?a |- _ => by apply (Hno a); [apply Hin|]
         end.
Qed.

(** X9: a [fetchOrders] entered while another is loading changes nothing and
    loads nothing; one entered otherwise makes exactly one call of
    [LoadOrders], for ten orders from offset 0, or from the number of
    orders shown when loading more, with the filter of the selected status,
    and leaves the loading flag unset on every path. *)
Theorem fetchOrders_guard_and_flag LoadOrders loadMore pg :
  (loading pg = true → fetchOrders LoadOrders loadMore pg = pg)
  ∧ (loading pg = false →
       loading (fetchOrders LoadOrders loadMore pg) = false
       ∧ loads (fetchOrders LoadOrders loadMore pg)
         = loads pg ++ [(int32 (next_offset loadMore pg), 10%Z, true,
                         statusFilter (Selected pg))]
       ∧ Selected (fetchOrders LoadOrders loadMore pg) = Selected pg
       ∧ position (fetchOrders LoadOrders loadMore pg) = position pg).
Proof.
  unfold fetchOrders. split; intros ->; [done|]. cbv zeta.
  change (next_offset loadMore (set_loading true (set_loadedAll false pg)))
    with (next_offset loadMore pg).
  destruct (LoadOrders _ _ _ _) as [tempOrders|]; [|done].
  destruct (decide (length tempOrders = 0)); [by destruct loadMore|].
  destruct (decide _); by destruct loadMore.
Qed.

Lemma fetchOrders_complete LoadOrders loadMore pg tempOrders :
  loading pg = false →
  LoadOrders (int32 (next_offset loadMore pg)) 10%Z true (statusFilter (Selected pg))
  = Some tempOrders →
  loadedAll (fetchOrders LoadOrders loadMore pg) = bool_decide (length tempOrders < 10).
Proof.
  intros Hl Hload. unfold fetchOrders. rewrite Hl. cbv zeta.
  change (next_offset loadMore (set_loading true (set_loadedAll false pg)))
    with (next_offset loadMore pg).
  change (int32 10) with 10%Z. rewrite Hload.
  destruct (decide (length tempOrders = 0)) as [Hz|Hz].
  - rewrite Hz. by destruct loadMore.
  - destruct (decide (Z.of_nat (length tempOrders) < 10)%Z) as [Hlt|Hge].
    + rewrite bool_decide_eq_true_2 by lia. by destruct loadMore.
    + rewrite bool_decide_eq_false_2 by lia. by destruct loadMore.
Qed.

(** X10: what a load that succeeds leaves: the orders loaded replace the list,
    or extend it when loading more (the orders shown before stay, in their
    order); the first load is recorded; the list counts as complete exactly
    when fewer than ten orders came; the window is reloaded unless none
    came. *)
Theorem fetchOrders_loaded LoadOrders loadMore pg tempOrders :
  loading pg = false →
  LoadOrders (int32 (next_offset loadMore pg)) 10%Z true (statusFilter (Selected pg))
  = Some tempOrders →
  orderItems (fetchOrders LoadOrders loadMore pg)
  = (if loadMore then orderItems pg else []) ++ tempOrders
  ∧ initialLoadingDone (fetchOrders LoadOrders loadMore pg) = true
  ∧ loadedAll (fetchOrders LoadOrders loadMore pg)
    = bool_decide (length tempOrders < 10)
  ∧ reloads (fetchOrders LoadOrders loadMore pg)
    = reloads pg + (if decide (tempOrders = []) then 0 else 1).
Proof.
  intros Hl Hload. unfold fetchOrders. rewrite Hl. cbv zeta.
  change (next_offset loadMore (set_loading true (set_loadedAll false pg)))
    with (next_offset loadMore pg).
  change (int32 10) with 10%Z. rewrite Hload.
  destruct (decide (length tempOrders = 0)) as [Hz|Hz].
  - apply length_zero_iff_nil in Hz as ->. simpl.
    destruct loadMore; simpl; rewrite ?app_nil_r; repeat split; lia.
  - destruct (decide (tempOrders = [])) as [->|_]; [done|].
    destruct (decide (Z.of_nat (length tempOrders) < 10)%Z) as [Hlt|Hge].
    + rewrite bool_decide_eq_true_2 by lia.
      destruct loadMore; simpl; repeat split; lia.
    + rewrite bool_decide_eq_false_2 by lia.
      destruct loadMore; simpl; repeat split; lia.
Qed.

(** X11: when [LoadOrders] yields nil the list is emptied, also when loading
    more: the orders shown before are dropped.  The first load is not
    recorded, the list does not count as complete and the window is not
    reloaded. *)
Theorem fetchOrders_nil_clears LoadOrders loadMore pg :
  loading pg = false →
  LoadOrders (int32 (next_offset loadMore pg)) 10%Z true (statusFilter (Selected pg))
  = None →
  orderItems (fetchOrders LoadOrders loadMore pg) = []
  ∧ initialLoadingDone (fetchOrders LoadOrders loadMore pg) = initialLoadingDone pg
  ∧ loadedAll (fetchOrders LoadOrders loadMore pg) = false
  ∧ reloads (fetchOrders LoadOrders loadMore pg) = reloads pg
  ∧ loading (fetchOrders LoadOrders loadMore pg) = false.
Proof.
  intros Hl Hload. unfold fetchOrders. rewrite Hl. cbv zeta.
  change (next_offset loadMore (set_loading true (set_loadedAll false pg)))
    with (next_offset loadMore pg).
  change (int32 10) with 10%Z. by rewrite Hload.
Qed.

(** X12: scrolling loads nothing while fewer than five orders are shown or
    before a first load has succeeded, and nothing once a load has brought
    fewer than ten orders, wherever the list is scrolled to: after such a
    load [onScrollChangeListener] leaves the page as it is. *)
Theorem scrolling_stops_at_the_last_page LoadOrders LoadOrders' loadMore pg
    tempOrders pos :
  loading pg = false →
  LoadOrders (int32 (next_offset loadMore pg)) 10%Z true (statusFilter (Selected pg))
  = Some tempOrders →
  length tempOrders < 10 →
  onScrollChangeListener LoadOrders'
    (set_position pos (fetchOrders LoadOrders loadMore pg))
  = set_position pos (fetchOrders LoadOrders loadMore pg)
  ∧ (∀ pg', length (orderItems pg') < 5 ∨ initialLoadingDone pg' = false →
       onScrollChangeListener LoadOrders' pg' = pg').
Proof.
  intros Hl Hload Hlt. split.
  - pose proof (fetchOrders_complete _ _ _ _ Hl Hload) as Hall.
    unfold onScrollChangeListener.
    change (loadedAll (set_position pos ?p)) with (loadedAll p).
    rewrite Hall, (bool_decide_eq_true_2 (length tempOrders < 10)) by done.
    simpl. destruct (_ || _); [done|]. by destruct (_ || _).
  - intros pg' [Hfew|Hd]; unfold onScrollChangeListener.
    + by rewrite bool_decide_eq_true_2.
    + by rewrite Hd, orb_true_r.
Qed.

End OrderHistoryList.

(** The texts of the examples. *)
Definition demo_String (st : Status) : string :=
  match st with
  | OrderStatusUnknown => "Unknown"
  | OrderStatusWaitingForDeposit => "Waiting for deposit"
  | OrderStatusDepositReceived => "Deposit received"
  | OrderStatusNew => "New"
  | OrderStatusRefunded => "Refunded"
  | OrderStatusExpired => "Expired"
  | OrderStatusCompleted => "Completed"
  end.

(** A store of twelve orders, numbered from 0, whatever the filter. *)
Definition demo_LoadOrders (offset limit : Z) (_ : bool) (_ : Status) :
    option (list nat) :=
  Some (take (Z.to_nat limit) (drop (Z.to_nat offset) (seq 0 12))).

Definition demo_page : @page nat :=
  MkPage "Completed" (MkPosition 0 false 0) [] false false false 0 [].

Lemma statusFilter_round_trip_witness :
  statusFilter demo_String "Completed" = OrderStatusCompleted
  ∧ statusFilter demo_String "Exchanging" = OrderStatusUnknown.
Proof.
  assert (∀ a b, a ∈ named_statuses → b ∈ named_statuses →
                 demo_String a = demo_String b → a = b) as Hinj.
  { intros a b _ _. by destruct a, b. }
  split.
  - apply (proj1 (statusFilter_round_trip demo_String Hinj) OrderStatusCompleted).
    unfold named_statuses.
    repeat first [apply list_elem_of_here | apply list_elem_of_further].
  - apply (proj2 (statusFilter_round_trip demo_String Hinj) "Exchanging").
    intros st _. by destruct st.
Defined.

Lemma fetchOrders_loaded_witness :
  orderItems (fetchOrders demo_String demo_LoadOrders true
                (fetchOrders demo_String demo_LoadOrders false demo_page))
  = seq 0 12
  ∧ loadedAll (fetchOrders demo_String demo_LoadOrders true
                 (fetchOrders demo_String demo_LoadOrders false demo_page))
    = true.
Proof.
  destruct (fetchOrders_loaded demo_String demo_LoadOrders true
              (fetchOrders demo_String demo_LoadOrders false demo_page)
              [10; 11] eq_refl eq_refl) as (Hitems & _ & Hall & _).
  split; [exact Hitems | exact Hall].
Defined.

Lemma fetchOrders_nil_clears_witness :
  orderItems (fetchOrders demo_String (λ _ _ _ _, None) true
                (fetchOrders demo_String demo_LoadOrders false demo_page))
  = []
  ∧ initialLoadingDone
      (fetchOrders demo_String (λ _ _ _ _, None) true
         (fetchOrders demo_String demo_LoadOrders false demo_page))
    = true.
Proof.
  destruct (fetchOrders_nil_clears demo_String (λ _ _ _ _, None) true
              (fetchOrders demo_String demo_LoadOrders false demo_page)
              eq_refl eq_refl) as (Hitems & Hdone & _).
  split; [exact Hitems | exact Hdone].
Defined.

Lemma scrolling_stops_at_the_last_page_witness :
  onScrollChangeListener demo_String demo_LoadOrders
    (set_position (MkPosition 0 true 40)
       (fetchOrders demo_String demo_LoadOrders true
          (fetchOrders demo_String demo_LoadOrders false demo_page)))
  = set_position (MkPosition 0 true 40)
      (fetchOrders demo_String demo_LoadOrders true
         (fetchOrders demo_String demo_LoadOrders false demo_page)).
Proof.
  exact (proj1 (scrolling_stops_at_the_last_page demo_String demo_LoadOrders
                  demo_LoadOrders true
                  (fetchOrders demo_String demo_LoadOrders false demo_page)
                  [10; 11] (MkPosition 0 true 40) eq_refl eq_refl
                  ltac:(simpl; lia))).
Defined.

End OrderHistoryList.

(** ** The proposal list of the proposals page

    [ProposalsPage.fetchProposals].  The categories are [int32] constants
    of libwallet and [components.LoadProposals] reads the wallet's store:
    both are parameters here, and so is the category of an item. *)

Module ProposalsList.

Section ProposalsList.
Context {ProposalItem : Type}.

Variable Category : ProposalItem → Z.   (* item.Proposal.Category *)
Variables ProposalCategoryAll ProposalCategoryPre ProposalCategoryActive
  ProposalCategoryApproved ProposalCategoryRejected ProposalCategoryAbandoned : Z.
Variable LoadProposals : Z → bool → list ProposalItem.

Record page : Type := MkPage {
  orderDropDown : Z;       (* pg.orderDropDown.SelectedIndex() *)
  categoryDropDown : Z;    (* pg.categoryDropDown.SelectedIndex() *)
  proposalItems : list ProposalItem
}.

(** The [switch] on the selected index of the category dropdown. *)
Definition proposalFilter (pg : page) : Z :=
  if decide (categoryDropDown pg = 1%Z) then ProposalCategoryApproved
  else if decide (categoryDropDown pg = 2%Z) then ProposalCategoryRejected
  else if decide (categoryDropDown pg = 3%Z) then ProposalCategoryAbandoned
  else ProposalCategoryAll.

Definition under_review (item : ProposalItem) : bool :=
  bool_decide (Category item = ProposalCategoryPre)
  || bool_decide (Category item = ProposalCategoryActive).

Definition fetchProposals (pg : page) : page :=
  let newestFirst := bool_decide (orderDropDown pg = 0%Z) in
  let proposalFilter := proposalFilter pg in
  let proposalItems := LoadProposals proposalFilter newestFirst in
  (* group 'In discussion' and 'Active' proposals into under review *)
  let listItems := List.filter under_review proposalItems in
  MkPage (orderDropDown pg) (categoryDropDown pg)
    (if decide (proposalFilter = ProposalCategoryAll) then listItems else proposalItems).

(** X13: with the first entry of the category dropdown selected (or an index the
    [switch] does not name) everything is loaded and only the proposals in
    discussion or being voted on are kept, in the order loaded; with the
    second, third or fourth entry the approved, rejected or abandoned
    proposals are loaded and shown as loaded, as long as those categories
    differ from the category for all. *)
Theorem fetchProposals_by_category (pg : page) :
  (categoryDropDown pg ≠ 1%Z → categoryDropDown pg ≠ 2%Z → categoryDropDown pg ≠ 3%Z →
     proposalItems (fetchProposals pg)
     = List.filter under_review
         (LoadProposals ProposalCategoryAll (bool_decide (orderDropDown pg = 0%Z)))
     ∧ ∀ item, item ∈ proposalItems (fetchProposals pg) →
         Category item = ProposalCategoryPre ∨ Category item = ProposalCategoryActive)
  ∧ (∀ i category,
       (i, category) ∈ [(1%Z, ProposalCategoryApproved); (2%Z, ProposalCategoryRejected);
                        (3%Z, ProposalCategoryAbandoned)] →
       categoryDropDown pg = i → category ≠ ProposalCategoryAll →
       proposalItems (fetchProposals pg)
       = LoadProposals category (bool_decide (orderDropDown pg = 0%Z))).
Proof.
  split.
  - intros H1 H2 H3.
    assert (proposalItems (fetchProposals pg)
            = List.filter under_review
                (LoadProposals ProposalCategoryAll (bool_decide (orderDropDown pg = 0%Z))))
      as Heq.
    { unfold fetchProposals, proposalFilter.
      do 3 (destruct (decide (categoryDropDown pg = _)); [done|]).
      simpl. by rewrite decide_True. }
    split; [done|]. intros item. rewrite Heq.
    intros [_ Hu]%list_elem_of_In%filter_In. unfold under_review in Hu.
    apply orb_true_iff in Hu as [Hu|Hu]; apply bool_decide_eq_true in Hu; auto.
  - intros i category Hin Hi Hne. unfold fetchProposals, proposalFilter.
    repeat (apply elem_of_cons in Hin as [Hin|Hin];
            [injection Hin as -> ->; rewrite Hi; simpl; by rewrite decide_False|]).
    by apply elem_of_nil in Hin.
Qed.

End ProposalsList.

(** The examples: proposals are their categories, numbered from 1 for all
    to 6 for abandoned, and the store holds one of each of the last five. *)
Definition demo_LoadProposals (category : Z) (newestFirst : bool) : list Z :=
  List.filter (λ c, bool_decide (category = 1%Z) || bool_decide (c = category))
    [2; 3; 4; 5; 6]%Z.

Lemma fetchProposals_by_category_witness :
  proposalItems (fetchProposals id 1 2 3 4 5 6 demo_LoadProposals (MkPage 0 0 []))
  = [2; 3]%Z
  ∧ proposalItems (fetchProposals id 1 2 3 4 5 6 demo_LoadProposals (MkPage 0 2 []))
    = [5%Z].
Proof.
  split.
  - exact (proj1 (proj1 (fetchProposals_by_category id 1 2 3 4 5 6 demo_LoadProposals
                           (MkPage 0 0 []))
                    ltac:(discriminate) ltac:(discriminate) ltac:(discriminate))).
  - refine (proj2 (fetchProposals_by_category id 1 2 3 4 5 6 demo_LoadProposals
                     (MkPage 0 2 [])) 2%Z 5%Z _ eq_refl ltac:(discriminate)).
    apply list_elem_of_further, list_elem_of_here.
Defined.

End ProposalsList.

(** ** The transaction list of the transactions page

    [TransactionsPage.loadTransactions].  The wallets, their
    [GetTransactionsRaw] and the filter constants of dcrlibwallet are
    parameters; a line of the log is the list of the operands given to the
    logger. *)

Module TransactionsList.

Section TransactionsList.
Context {Wallet Transaction : Type}.

Variables TxFilterAll TxFilterSent TxFilterReceived TxFilterTransferred
  TxFilterStaking : Z.
Variable GetTransactionsRaw :
  Wallet → Z → Z → Z → bool → list Transaction + string.

Record page : Type := MkPage {
  wallets : list Wallet;
  walletDropDown : Z;     (* pg.walletDropDown.SelectedIndex() *)
  orderDropDown : Z;      (* pg.orderDropDown.SelectedIndex() *)
  txTypeDropDown : Z;     (* pg.txTypeDropDown.SelectedIndex() *)
  transactions : list Transaction;
  log : list (list string)
}.

Inductive outcome : Type :=
| Done (pg : page)
| IndexOutOfRange.   (* the run-time panic of an index expression *)

(** [s[i]] on a slice. *)
Definition index {A : Type} (s : list A) (i : Z) : option A :=
  if decide (0 ≤ i)%Z then s !! Z.to_nat i else None.

Definition txFilter (pg : page) : Z :=
  if decide (txTypeDropDown pg = 1%Z) then TxFilterSent
  else if decide (txTypeDropDown pg = 2%Z) then TxFilterReceived
  else if decide (txTypeDropDown pg = 3%Z) then TxFilterTransferred
  else if decide (txTypeDropDown pg = 4%Z) then TxFilterStaking
  else TxFilterAll.

Definition loadTransactions (pg : page) : outcome :=
  match index (wallets pg) (walletDropDown pg) with
  | None => IndexOutOfRange
  | Some selectedWallet =>
      let newestFirst := bool_decide (orderDropDown pg = 0%Z) in
      let txFilter := txFilter pg in
      match GetTransactionsRaw selectedWallet 0 0 txFilter newestFirst with
      | inr err =>
          Done (MkPage (wallets pg) (walletDropDown pg) (orderDropDown pg)
                  (txTypeDropDown pg) (transactions pg)
                  (log pg ++ [["Error loading transactions:"; err]]))
      | inl wallTxs =>
          Done (MkPage (wallets pg) (walletDropDown pg) (orderDropDown pg)
                  (txTypeDropDown pg) wallTxs (log pg))
      end
  end.

(** X14: [loadTransactions] panics exactly when the selected index of the
    wallet dropdown is not an index of the wallet list, so always when the
    list is empty.  Otherwise it returns: when the wallet answers with an
    error the transactions shown stay as they were and one line is logged;
    when it answers with transactions they replace the ones shown and
    nothing is logged. *)
Theorem loadTransactions_spec (pg : page) :
  (loadTransactions pg = IndexOutOfRange
   ↔ ¬ (0 ≤ walletDropDown pg < Z.of_nat (length (wallets pg)))%Z)
  ∧ (∀ pg', loadTransactions pg = Done pg' →
       ∃ selectedWallet,
         index (wallets pg) (walletDropDown pg) = Some selectedWallet
         ∧ wallets pg' = wallets pg
         ∧ match GetTransactionsRaw selectedWallet 0 0 (txFilter pg)
                   (bool_decide (orderDropDown pg = 0%Z)) with
           | inr err =>
               transactions pg' = transactions pg
               ∧ log pg' = log pg ++ [["Error loading transactions:"; err]]
           | inl wallTxs => transactions pg' = wallTxs ∧ log pg' = log pg
           end).
Proof.
  unfold loadTransactions, index. split.
  - destruct (decide (0 ≤ walletDropDown pg)%Z) as [Hpos|Hneg].
    + destruct (wallets pg !! Z.to_nat (walletDropDown pg)) as [w|] eqn:Hw.
      * apply lookup_lt_Some in Hw.
        destruct (GetTransactionsRaw _ _ _ _ _); (split; [done|lia]).
      * apply lookup_ge_None in Hw. split; [lia|done].
    + split; [lia|done].
  - intros pg' Hdone.
    destruct (decide (0 ≤ walletDropDown pg)%Z) as [Hpos|Hneg]; [|done].
    destruct (wallets pg !! Z.to_nat (walletDropDown pg)) as [w|]; [|done].
    exists w. split; [done|].
    destruct (GetTransactionsRaw _ _ _ _ _); by simplify_eq.
Qed.

End TransactionsList.

End TransactionsList.

(** ** The tabs of the single wallet master page

    [SingleWalletMasterPage.initTabOptions] and
    [navigateToSelectedTab].  The tab titles are string constants of
    package values; the [switch] of [navigateToSelectedTab] names the eight
    used here as its cases, so they are pairwise distinct.  The selected
    wallet is an interface value: what the page asks of it are its answers
    to [IsWatchingOnlyWallet] and [GetAssetType] and its dynamic type. *)

Module WalletTabs.

Inductive tab : Type :=
| StrInfo
| StrSend
| StrReceive
| StrTransactions
| StrStakeShuffle
| StrStaking
| StrAccounts
| StrSettings.

#[global] Instance tab_eq_dec : EqDecision tab.
Proof. solve_decision. Defined.

Inductive AssetType : Type :=
| DCRWalletAsset
| BTCWalletAsset
| OtherWalletAsset.

#[global] Instance AssetType_eq_dec : EqDecision AssetType.
Proof. solve_decision. Defined.

(** A [*dcr.Asset], as far as the page looks into it. *)
Record dcr_Asset : Type := MkDcrAsset {
  AccountMixerConfigIsSet : bool
}.

(** The dynamic type of the interface value: a [*dcr.Asset], nil or not,
    or another implementation. *)
Inductive dynamic_type : Type :=
| DcrAsset (ptr : option dcr_Asset)
| OtherImplementation.

Record Asset : Type := MkAsset {
  IsWatchingOnlyWallet : bool;
  GetAssetType : AssetType;
  dynamic : dynamic_type
}.

(** The appends of [initTabOptions] build their result in a new array, or
    write what the inner append has already copied: they are
    concatenations. *)
Definition initTabOptions (selectedWallet : Asset) : list tab :=
  let commonTabs := [StrInfo; StrReceive; StrTransactions; StrAccounts; StrSettings] in
  let commonTabs :=
    if negb (IsWatchingOnlyWallet selectedWallet)
    then
      let sendTab := [StrSend] in
      take 1 commonTabs ++ (sendTab ++ drop 1 commonTabs)
    else commonTabs in
  if decide (GetAssetType selectedWallet = DCRWalletAsset)
  then
    let dcrSpecificTabs := [] in
    let dcrSpecificTabs :=
      if negb (IsWatchingOnlyWallet selectedWallet)
      then dcrSpecificTabs ++ [StrStakeShuffle]
      else dcrSpecificTabs in
    let dcrSpecificTabs := dcrSpecificTabs ++ [StrStaking] in
    let insertIndex := 3 in
    let insertIndex :=
      if negb (IsWatchingOnlyWallet selectedWallet) then S insertIndex else insertIndex in
    take insertIndex commonTabs ++ (dcrSpecificTabs ++ drop insertIndex commonTabs)
  else commonTabs.

Inductive page : Type :=
| SendPage
| ReceivePage
| InfoPage
| TransactionsPage
| SetupPrivacyPage
| AccountMixerPage
| StakingPage
| AccountPage
| SettingsPage.

Inductive nav_panic : Type :=
| InterfaceConversion   (* selectedWallet.( *dcr.Asset ) on another type *)
| NilDereference.       (* pg.ID() with pg the nil interface *)

Inductive nav_result : Type :=
| Displayed (pg : page)   (* activeTab[segment] = pg.ID(), then Display(pg) *)
| Panics (p : nav_panic).

(** The [switch] on the selected segment, [None] for a segment that is
    none of its cases; the page it leaves in [pg], if any. *)
Definition selected_page (selectedWallet : Asset) (segment : option tab) :
    option page + nav_panic :=
  match segment with
  | Some StrSend => inl (Some SendPage)
  | Some StrReceive => inl (Some ReceivePage)
  | Some StrInfo => inl (Some InfoPage)
  | Some StrTransactions => inl (Some TransactionsPage)
  | Some StrStakeShuffle =>
      match dynamic selectedWallet with
      | DcrAsset (Some dcrW) =>
          if negb (AccountMixerConfigIsSet dcrW)
          then inl (Some SetupPrivacyPage)
          else inl (Some AccountMixerPage)
      | DcrAsset None => inl None
      | OtherImplementation => inr InterfaceConversion
      end
  | Some StrStaking =>
      match dynamic selectedWallet with
      | DcrAsset (Some dcrW) => inl (Some StakingPage)
      | DcrAsset None => inl None   (* log.Error(values.ErrDCRSupportedOnly) *)
      | OtherImplementation => inr InterfaceConversion
      end
  | Some StrAccounts => inl (Some AccountPage)
  | Some StrSettings => inl (Some SettingsPage)
  | None => inl None
  end.

Definition navigateToSelectedTab (selectedWallet : Asset) (segment : option tab) :
    nav_result :=
  match selected_page selectedWallet segment with
  | inl (Some pg) => Displayed pg
  | inl None => Panics NilDereference
  | inr p => Panics p
  end.

Lemma dcr_tabs_offered (w : Asset) (t : tab) :
  t ∈ initTabOptions w → t = StrStaking ∨ t = StrStakeShuffle →
  GetAssetType w = DCRWalletAsset.
Proof.
  destruct w as [[|] [| |] d]; unfold initTabOptions; simpl; try done.
  all: intros Hin [-> | ->]; apply (bool_decide_pack _) in Hin; by vm_compute in Hin.
Qed.

(** X15: the tabs of a wallet: [Info] first and [Settings] last, no tab twice;
    [Send] exactly for a wallet that is not watching-only, [Staking]
    exactly for a DCR wallet, [StakeShuffle] exactly for a DCR wallet that
    is not watching-only; the DCR tabs stand together right before
    [Accounts]; and without the three the tabs are the common ones in
    their order. *)
Theorem initTabOptions_tabs (w : Asset) :
  NoDup (initTabOptions w)
  ∧ head (initTabOptions w) = Some StrInfo
  ∧ last (initTabOptions w) = Some StrSettings
  ∧ (StrSend ∈ initTabOptions w ↔ IsWatchingOnlyWallet w = false)
  ∧ (StrStaking ∈ initTabOptions w ↔ GetAssetType w = DCRWalletAsset)
  ∧ (StrStakeShuffle ∈ initTabOptions w
     ↔ GetAssetType w = DCRWalletAsset ∧ IsWatchingOnlyWallet w = false)
  ∧ List.filter (λ t, bool_decide (t ∉ [StrSend; StrStakeShuffle; StrStaking]))
      (initTabOptions w)
    = [StrInfo; StrReceive; StrTransactions; StrAccounts; StrSettings]
  ∧ (GetAssetType w = DCRWalletAsset →
       ∃ before dcrTabs,
         initTabOptions w = before ++ dcrTabs ++ [StrAccounts; StrSettings]
         ∧ dcrTabs = List.filter (λ t, bool_decide (t ∈ [StrStakeShuffle; StrStaking]))
                       (initTabOptions w)).
Proof.
  destruct w as [[|] [| |] d]; unfold initTabOptions; simpl.
  all: repeat (split; [apply (bool_decide_unpack _); vm_compute; exact I|]).
  all: try (intros H; discriminate H).
  - intros _. by exists [StrInfo; StrReceive; StrTransactions], [StrStaking].
  - intros _. by exists [StrInfo; StrSend; StrReceive; StrTransactions],
                        [StrStakeShuffle; StrStaking].
Qed.

(** X16: every tab the page offers for a wallet leads to a page, provided a DCR
    wallet is a [*dcr.Asset] that is not nil: on the privacy tab the setup
    page as long as the mixer is not configured and the mixer page once it
    is.  A segment that is none of the cases, and a DCR tab on a nil
    [*dcr.Asset], leave no page and the call of [pg.ID()] panics; a DCR tab
    on a wallet of another type panics in the type assertion. *)
Theorem offered_tabs_lead_to_pages (w : Asset) :
  (GetAssetType w = DCRWalletAsset → ∃ dcrW, dynamic w = DcrAsset (Some dcrW)) →
  (∀ t, t ∈ initTabOptions w → ∃ pg, navigateToSelectedTab w (Some t) = Displayed pg)
  ∧ (∀ dcrW, dynamic w = DcrAsset (Some dcrW) →
       navigateToSelectedTab w (Some StrStakeShuffle)
       = Displayed (if AccountMixerConfigIsSet dcrW then AccountMixerPage
                    else SetupPrivacyPage))
  ∧ navigateToSelectedTab w None = Panics NilDereference
  ∧ (∀ w' t, t = StrStaking ∨ t = StrStakeShuffle →
       (dynamic w' = DcrAsset None →
          navigateToSelectedTab w' (Some t) = Panics NilDereference)
       ∧ (dynamic w' = OtherImplementation →
            navigateToSelectedTab w' (Some t) = Panics InterfaceConversion)).
Proof.
  intros Hdcr. split; [|split; [|split]].
  - intros t Ht. unfold navigateToSelectedTab.
    destruct t; simpl; eauto.
    + destruct (Hdcr (dcr_tabs_offered w _ Ht (or_intror eq_refl))) as [dcrW ->].
      destruct (AccountMixerConfigIsSet dcrW); eauto.
    + destruct (Hdcr (dcr_tabs_offered w _ Ht (or_introl eq_refl))) as [dcrW ->].
      eauto.
  - intros dcrW Hd. unfold navigateToSelectedTab. simpl. rewrite Hd.
    by destruct (AccountMixerConfigIsSet dcrW).
  - done.
  - intros w' t [-> | ->]; unfold navigateToSelectedTab; simpl;
      split; intros ->; done.
Qed.

Lemma offered_tabs_lead_to_pages_witness :
  initTabOptions (MkAsset false DCRWalletAsset (DcrAsset (Some (MkDcrAsset false))))
  = [StrInfo; StrSend; StrReceive; StrTransactions; StrStakeShuffle; StrStaking;
     StrAccounts; StrSettings]
  ∧ navigateToSelectedTab
      (MkAsset false DCRWalletAsset (DcrAsset (Some (MkDcrAsset false))))
      (Some StrStakeShuffle)
    = Displayed SetupPrivacyPage.
Proof.
  split; [reflexivity|].
  exact (proj1 (proj2 (offered_tabs_lead_to_pages
                         (MkAsset false DCRWalletAsset (DcrAsset (Some (MkDcrAsset false))))
                         (λ _, ex_intro _ (MkDcrAsset false) eq_refl)))
           (MkDcrAsset false) eq_refl).
Defined.

End WalletTabs.

(** ** What the receive cases of the three pages do, counted *)

Module PageHandlers.
Import Bridge.

(** The notifications dispatched, on whatever channel, that satisfy [P]. *)
Definition count_dispatched {N : Type} (P : N → bool) (lg : list (@event N)) : nat :=
  length (List.filter (λ v, from_option P false v) (dispatched_all lg)).

Lemma count_dispatched_sent {N : Type} (P : N → bool) (lg : list (@event N)) ns :
  dispatched_all lg = Some <$> ns →
  count_dispatched P lg = length (List.filter P ns).
Proof.
  unfold count_dispatched. intros ->. induction ns as [|n ns IH]; [done|].
  simpl. destruct (P n); simpl; [f_equal|]; exact IH.
Qed.

Lemma proposals_fold zero ns pg :
  ProposalsPage.fetches (foldl (λ l n, ProposalsPage.handler zero (Some n) l) pg ns)
  = ProposalsPage.fetches pg
    + length (List.filter (λ n, bool_decide (ProposalsPage.Status n = ProposalsPage.Synced)) ns)
  ∧ ProposalsPage.reloads (foldl (λ l n, ProposalsPage.handler zero (Some n) l) pg ns)
    = ProposalsPage.reloads pg
      + length (List.filter (λ n, bool_decide (ProposalsPage.Status n = ProposalsPage.Synced)) ns).
Proof.
  revert pg. induction ns as [|n ns IH]; intros pg; simpl; [lia|].
  destruct (IH (ProposalsPage.handler zero (Some n) pg)) as [-> ->].
  unfold ProposalsPage.handler, ProposalsPage.handle; simpl.
  destruct (decide (ProposalsPage.Status n = ProposalsPage.Synced)) as [Hs|Hs].
  - rewrite bool_decide_eq_true_2 by done. simpl. lia.
  - rewrite bool_decide_eq_false_2 by done. simpl. lia.
Qed.

(** X17: the loop of the proposals page calls [fetchProposals] and reloads the
    window once for every [Synced] notification dispatched, and for no
    other notification. *)
Theorem proposals_page_refetches_once_per_sync capacity zero w t s :
  ProposalsPage.run capacity zero w t = Running s →
  ProposalsPage.fetches (pg_local s)
  = count_dispatched (λ n, bool_decide (ProposalsPage.Status n = ProposalsPage.Synced)) (log s)
  ∧ ProposalsPage.reloads (pg_local s) = ProposalsPage.fetches (pg_local s).
Proof.
  intros Hrun.
  assert (reachable capacity (ProposalsPage.handler zero) w ProposalsPage.new_page s)
    as Hr by (by exists t).
  destruct (dispatched_all_sent _ _ _ _ _ Hr) as [ns Hns].
  rewrite (count_dispatched_sent _ _ _ Hns), (local_fold _ _ _ _ _ Hr), Hns.
  assert (∀ (l0 : ProposalsPage.page),
            foldl (λ l v, ProposalsPage.handler zero v l) l0 (Some <$> ns)
            = foldl (λ l n, ProposalsPage.handler zero (Some n) l) l0 ns) as ->.
  { clear. induction ns as [|n ns IH]; intros l0; simpl; [done|]. apply IH. }
  destruct (proposals_fold zero ns ProposalsPage.new_page) as [-> ->]. done.
Qed.



Definition is_started (n : AccountMixerPage.MixerNotification) : bool :=
  bool_decide (AccountMixerPage.RunStatus n = AccountMixerPage.MixerStarted).

Definition is_ended (n : AccountMixerPage.MixerNotification) : bool :=
  bool_decide (AccountMixerPage.RunStatus n = AccountMixerPage.MixerEnded).

Lemma mixer_fold zero ns pg :
  AccountMixerPage.toasts (foldl (λ l n, AccountMixerPage.handler zero (Some n) l) pg ns)
  = AccountMixerPage.toasts pg
    ++ replicate (length (List.filter is_started ns)) "Mixer start Successfully"
  ∧ AccountMixerPage.reloads (foldl (λ l n, AccountMixerPage.handler zero (Some n) l) pg ns)
    = AccountMixerPage.reloads pg
      + length (List.filter is_started ns) + length (List.filter is_ended ns).
Proof.
  revert pg. induction ns as [|n ns IH]; intros pg; simpl.
  { rewrite app_nil_r. split; [done|lia]. }
  destruct (IH (AccountMixerPage.handler zero (Some n) pg)) as [-> ->].
  unfold AccountMixerPage.handler, AccountMixerPage.handle, is_started, is_ended; simpl.
  destruct n as [[|]]; simpl.
  - rewrite <- app_assoc. split; [done|lia].
  - split; [done|lia].
Qed.

(** X19: the loop of the mixer page shows the toast once for every
    [MixerStarted] notification dispatched and for no other, and reloads
    the window once for every [MixerStarted] and once for every
    [MixerEnded] notification dispatched. *)
Theorem mixer_page_toasts_once_per_start capacity zero w t s :
  AccountMixerPage.run capacity zero w t = Running s →
  AccountMixerPage.toasts (pg_local s)
  = replicate (count_dispatched is_started (log s)) "Mixer start Successfully"
  ∧ AccountMixerPage.reloads (pg_local s)
    = count_dispatched is_started (log s) + count_dispatched is_ended (log s).
Proof.
  intros Hrun.
  assert (reachable capacity (AccountMixerPage.handler zero) w AccountMixerPage.new_page s)
    as Hr by (by exists t).
  destruct (dispatched_all_sent _ _ _ _ _ Hr) as [ns Hns].
  rewrite !(count_dispatched_sent _ _ _ Hns), (local_fold _ _ _ _ _ Hr), Hns.
  assert (∀ (l0 : AccountMixerPage.page),
            foldl (λ l v, AccountMixerPage.handler zero v l) l0 (Some <$> ns)
            = foldl (λ l n, AccountMixerPage.handler zero (Some n) l) l0 ns) as ->.
  { clear. induction ns as [|n ns IH]; intros l0; simpl; [done|]. apply IH. }
  by destruct (mixer_fold zero ns AccountMixerPage.new_page) as [-> ->].
Qed.

End PageHandlers.

(** ** The loops of the transactions page, counted

    Several goroutines can read the shared channel (every [OnResume]
    starts one, none is ever joined): each notification goes to one of
    them. *)

Module TxVisits.
Import Chan TxPage.















End TxVisits.

(** ** The exchange rate of the single wallet master page

    [SingleWalletMasterPage.fetchExchangeRate] with [updateBalance], run
    one call at a time.  The market of an asset, the ticker of the rate
    source, the wallet's balance and the arithmetic on amounts are outside
    these sources and parameters here; [float64] is kept abstract, with the
    one comparison the page makes. *)

Module ExchangeRate.

Section ExchangeRate.
Context {float64 Market Amount : Type}.

Variable le_zero : float64 → bool.                      (* x <= 0 *)
Variable USDMarketFromAsset : option Market.            (* nil on error *)
Variable GetTicker : Market → option float64.           (* rate.LastTradePrice, nil rate *)
Variable CalculateTotalWalletsBalance : Amount + string.
Variable FormatAsUSDString : Amount → float64 → string. (* of Total.MulF64(rate).ToCoin() *)

Inductive log_line : Type :=
| UnsupportedAsset        (* log.Errorf("Asset type %q is not supported ...") *)
| BalanceError (err : string).

Record page : Type := MkPage {
  walletBalance : option Amount;
  usdExchangeRate : float64;
  usdExchangeSet : bool;
  isFetchingExchangeRate : bool;
  totalBalanceUSD : string;
  reloads : nat;
  log : list log_line
}.






End ExchangeRate.

End ExchangeRate.

(** ** Executions of the pages, continued *)

Module Visits.
Import Chan Bridge.

Ltac with_run r :=
  let v := eval vm_compute in r in
  lazymatch v with
  | Running ?s =>
      assert (r = Running s) as Hrun by (vm_compute; reflexivity); exists s
  end.

Definition mixer_started : AccountMixerPage.MixerNotification :=
  AccountMixerPage.MkNotification AccountMixerPage.MixerStarted.


Lemma one_goroutine_per_registration_witness :
  ∃ s, ProposalsPage.run 4 ProposalsPage.NewProposal engine_locks
         [NavigateTo false; Callback 0 Scenarios.synced; NavigateFrom; NavigateTo false]
       = Running s
       ∧ length (loops s) ≤ 1
       ∧ registry s = [0] ∧ pg_listener s = Some 0.
Proof.
  with_run (ProposalsPage.run 4 ProposalsPage.NewProposal engine_locks
              [NavigateTo false; Callback 0 Scenarios.synced; NavigateFrom;
               NavigateTo false]).
  split; [exact Hrun|].
  destruct (one_goroutine_per_registration 4
              (ProposalsPage.handler ProposalsPage.NewProposal) engine_locks
              ProposalsPage.new_page _ (ex_intro _ _ Hrun)) as (Hle & _ & Hreg).
  split; [exact Hle|].
  destruct (Hreg 0 (list_elem_of_here _ _)) as (Hr & Hl & _).
  split; [exact Hr | exact Hl].
Defined.

Lemma receive_case_never_sees_zero_value_witness :
  ∃ s, ProposalsPage.run 4 ProposalsPage.NewProposal engine_locks
         [NavigateTo false; LoopRun 0; Callback 0 Scenarios.synced; LoopRun 0]
       = Running s
       ∧ ∃ n, Some Scenarios.synced = Some n ∧ n ∈ sent 0 (log s).
Proof.
  with_run (ProposalsPage.run 4 ProposalsPage.NewProposal engine_locks
              [NavigateTo false; LoopRun 0; Callback 0 Scenarios.synced; LoopRun 0]).
  split; [exact Hrun|].
  exact (proj1 (receive_case_never_sees_zero_value 4
                  (ProposalsPage.handler ProposalsPage.NewProposal) engine_locks
                  ProposalsPage.new_page _ 0 (ex_intro _ _ Hrun))
           (Some Scenarios.synced) (list_elem_of_here _ _)).
Defined.


Lemma attach_deliver_detach_witness :
  ∃ s', run 4 (ProposalsPage.handler ProposalsPage.NewProposal) engine_locks
          (NavigateTo false :: LoopRun 0
           :: deliver [Scenarios.vote_started; Scenarios.synced]
              ++ [NavigateFrom; LoopRun 0; LoopRun 0; LoopRun 0])
          ProposalsPage.init
        = Running s'
        ∧ dispatched 0 (log s') = [Some Scenarios.vote_started; Some Scenarios.synced]
        ∧ ProposalsPage.fetches (pg_local s') = 1
        ∧ registry s' = [] ∧ loops s' = [].
Proof.
  destruct (attach_deliver_detach 4
              (ProposalsPage.handler ProposalsPage.NewProposal) engine_locks
              ProposalsPage.new_page ProposalsPage.init
              [Scenarios.vote_started; Scenarios.synced]
              (reachable_init _ _ _ _) eq_refl)
    as (s' & Hrun & _ & Hr & Hg & _ & _ & Hd & Hloc).
  exists s'. split; [exact Hrun|]. split; [exact Hd|].
  split; [by rewrite Hloc|]. split; [exact Hr | exact Hg].
Defined.

Lemma reattach_before_teardown_detaches_witness :
  ∃ s, ProposalsPage.run 4 ProposalsPage.NewProposal engine_locks
         [NavigateTo false; LoopRun 0] = Running s
       ∧ ∃ s', run 4 (ProposalsPage.handler ProposalsPage.NewProposal) engine_locks
                 [NavigateFrom; NavigateTo false; LoopRun 0; LoopRun 0; LoopRun 0] s
               = Running s'
               ∧ pg_listener s' = None ∧ registry s' = [] ∧ loops s' = []
               ∧ pg_ctx s' = Some 1 ∧ cancelled 1 s' = false.
Proof.
  with_run (ProposalsPage.run 4 ProposalsPage.NewProposal engine_locks
              [NavigateTo false; LoopRun 0]).
  split; [exact Hrun|].
  destruct (reattach_before_teardown_detaches 4
              (ProposalsPage.handler ProposalsPage.NewProposal) engine_locks
              ProposalsPage.new_page _ 0 0 false (ex_intro _ _ Hrun) eq_refl eq_refl)
    as (s' & Hrun' & Hl & Hr & Hg & Hk & Hd & _).
  exists s'. split; [exact Hrun'|]. split; [exact Hl|]. split; [exact Hr|].
  split; [exact Hg|]. split; [exact Hk | exact Hd].
Defined.

Lemma proposals_page_refetches_once_per_sync_witness :
  ∃ s, ProposalsPage.run 4 ProposalsPage.NewProposal engine_locks
         [NavigateTo false; Callback 0 Scenarios.synced; Callback 0 Scenarios.vote_started;
          Callback 0 Scenarios.synced;
          LoopSelect 0 BrRecv; LoopRun 0; LoopSelect 0 BrRecv; LoopRun 0;
          LoopSelect 0 BrRecv; LoopRun 0]
       = Running s
       ∧ ProposalsPage.fetches (pg_local s) = 2
       ∧ ProposalsPage.reloads (pg_local s) = 2.
Proof.
  with_run (ProposalsPage.run 4 ProposalsPage.NewProposal engine_locks
              [NavigateTo false; Callback 0 Scenarios.synced;
               Callback 0 Scenarios.vote_started; Callback 0 Scenarios.synced;
               LoopSelect 0 BrRecv; LoopRun 0; LoopSelect 0 BrRecv; LoopRun 0;
               LoopSelect 0 BrRecv; LoopRun 0]).
  split; [exact Hrun|].
  destruct (PageHandlers.proposals_page_refetches_once_per_sync _ _ _ _ _ Hrun)
    as [Hf Hrl].
  split; [exact Hf|]. rewrite Hrl. exact Hf.
Defined.


Lemma mixer_page_toasts_once_per_start_witness :
  ∃ s, AccountMixerPage.run 4 AccountMixerPage.MixerStarted engine_locks
         [NavigateTo false; LoopRun 0; Callback 0 mixer_started; LoopRun 0; LoopRun 0;
          Callback 0 Scenarios.mixer_ended; LoopRun 0]
       = Running s
       ∧ AccountMixerPage.toasts (pg_local s) = ["Mixer start Successfully"]
       ∧ AccountMixerPage.reloads (pg_local s) = 2.
Proof.
  with_run (AccountMixerPage.run 4 AccountMixerPage.MixerStarted engine_locks
              [NavigateTo false; LoopRun 0; Callback 0 mixer_started; LoopRun 0;
               LoopRun 0; Callback 0 Scenarios.mixer_ended; LoopRun 0]).
  split; [exact Hrun|].
  exact (PageHandlers.mixer_page_toasts_once_per_start _ _ _ _ _ Hrun).
Defined.


End Visits.
